(** * Async patterns: retrying HTTP client, fan-out dispatcher, task manager

    A shallow embedding of [examples/patterns/async-patterns.py]:
    - [Http]: [APIResponse], [AsyncHTTPClient._request] with its retry loop
      and exponential backoff, [fetch_multiple_urls] on top of
      [asyncio.gather(..., return_exceptions=True)];
    - [Limiter]: the [asyncio.Semaphore(10)] guarding [fetch_with_semaphore],
      as a labelled transition system over the units of one batch;
    - [TaskManager]: [AsyncTaskManager] with its name -> task dictionary, the
      task objects it shares with the event loop, and the done callbacks. *)

From stdpp Require Import gmap strings list fin_maps pretty.

Local Open Scope Z_scope.

(* ===================================================================== *)
(** ** The HTTP client and the fan-out dispatcher                         *)
(* ===================================================================== *)

Module Http.

(** A Python exception object, reduced to what the code observes: whether it
    is an instance of [Exception] (what [except Exception] tests; a
    [BaseException] outside that hierarchy, such as
    [asyncio.CancelledError], is not), its [str(e)], and its truth value
    [bool(e)] (what [elif task.exception():] tests: true unless the class
    of the exception defines [__bool__] or [__len__] otherwise). *)
Record exn := Exn {
  is_exception : bool;
  exn_str : string;
  exn_bool : bool
}.

(** The outcome of an awaited call: a value, or a raised exception. *)
Inductive outcome (A : Type) :=
| Returns (a : A)
| Raises (e : exn).
Arguments Returns {A} a.
Arguments Raises {A} e.

(** Sequencing of awaits: the first exception raised ends the block. *)
#[export] Instance outcome_bind : MBind outcome := λ A B k o,
  match o with
  | Returns a => k a
  | Raises e => Raises e
  end.

(** [data]: the decoded JSON document or the raw text of the body. *)
Inductive payload :=
| JsonData (doc : string)
| TextData (s : string).

(** [@dataclass class APIResponse]. *)
Record APIResponse := mkAPIResponse {
  status : Z;
  data : option payload;
  error : option string
}.

(** What [session.request(...)] yields inside [async with ... as response]:
    the status line, the content type, and what awaiting [response.json()]
    and [response.text()] gives (each may raise while reading the body).
    [response.json()] gives the decoded document, which is Python's [None]
    for a JSON [null] and for an empty body. *)
Record http_response := mkHttpResponse {
  resp_status : Z;
  content_type : string;
  json : outcome (option string);
  text : outcome string
}.

(** The transport collaborator seen from one logical request: what the call
    [session.request(method, url)] of attempt number [attempt] does. *)
Definition transport := string → string → Z → outcome http_response.

(** Observable effects of [_request], in program order: the transport call
    of an attempt, and the start of a backoff sleep of so many seconds. *)
Inductive io_event :=
| EvCall (method url : string) (attempt : Z)
| EvSleep (seconds : Z).

(** [wait_time = 2 ** attempt]. *)
Definition wait_time (attempt : Z) : Z := 2 ^ attempt.

(** The body of the [try] block, lines 63-69. *)
Definition try_body (call : outcome http_response) : outcome APIResponse :=
  response ← call ;
  if resp_status response <? 400 then
    d ← (if String.eqb (content_type response) "application/json"
         then doc ← json response ;
              Returns (match doc with
                       | Some document => Some (JsonData document)
                       | None => None
                       end)
         else s ← text response ; Returns (Some (TextData s))) ;
    Returns (mkAPIResponse (resp_status response) d None)
  else
    error_text ← text response ;
    Returns (mkAPIResponse (resp_status response) None (Some error_text)).

(** [str(last_exception)], where [last_exception] starts as [None]. *)
Definition py_str (last_exception : option exn) : string :=
  match last_exception with
  | Some e => exn_str e
  | None => "None"
  end.

Definition emit {A} (ev : list io_event) (r : A * list io_event) :
    A * list io_event :=
  (r.1, ev ++ r.2).

(** What awaiting [asyncio.sleep(wait_time)] after the failed attempt of a
    given number gives: it returns, or an exception is raised in it (the
    [CancelledError] of a unit cancelled while it sleeps). *)
Definition sleeper := Z → outcome unit.

(** The sleeps of a run that nothing interrupts. *)
Definition uninterrupted : sleeper := λ _, Returns ().

(** The [for attempt in range(retries + 1)] loop of [_request], over the
    attempts still to make; falling out of the loop reaches line 80. An
    exception that [except Exception] does not take leaves the function,
    and so does whatever is raised in the backoff sleep, which is awaited in
    the handler, outside the [try] block. The logger calls are left out. *)
Fixpoint request_loop (session : transport) (sleep : sleeper)
    (method url : string) (retries : Z) (attempts : list Z)
    (last_exception : option exn)
    : outcome APIResponse * list io_event :=
  match attempts with
  | [] => (Returns (mkAPIResponse 0 None (Some (py_str last_exception))), [])
  | attempt :: rest =>
      match try_body (session method url attempt) with
      | Returns r => (Returns r, [EvCall method url attempt])
      | Raises e =>
          if is_exception e then
            if attempt <? retries then
              match sleep attempt with
              | Returns _ =>
                  emit [EvCall method url attempt;
                        EvSleep (wait_time attempt)]
                    (request_loop session sleep method url retries rest
                       (Some e))
              | Raises e' =>
                  (Raises e',
                   [EvCall method url attempt; EvSleep (wait_time attempt)])
              end
            else
              emit [EvCall method url attempt]
                (request_loop session sleep method url retries rest (Some e))
          else (Raises e, [EvCall method url attempt])
      end
  end.

(** [range(n)]. *)
Definition range (n : Z) : list Z := seqZ 0 n.

(** [AsyncHTTPClient._request]. *)
Definition _request (session : transport) (sleep : sleeper)
    (method url : string) (retries : Z)
    : outcome APIResponse * list io_event :=
  request_loop session sleep method url retries (range (retries + 1)) None.

Definition default_retries : Z := 3.

(** [AsyncHTTPClient.get]; [retries] is the keyword passed through
    [**kwargs], [default_retries] when absent. *)
Definition get (session : transport) (sleep : sleeper) (url : string)
    (retries : Z) : outcome APIResponse * list io_event :=
  _request session sleep "GET" url retries.

(** The transport calls made, in order. *)
Definition calls (tr : list io_event) : list Z :=
  omap (λ ev, match ev with EvCall _ _ a => Some a | EvSleep _ => None end) tr.

(** Attempt [k] raises [e] out of the [try] block and the handler
    [except Exception] takes it. *)
Definition attempt_fails (session : transport) (method url : string)
    (k : Z) (e : exn) : Prop :=
  try_body (session method url k) = Raises e ∧ is_exception e = true.

(** [asyncio.CancelledError()]: a [BaseException], not an [Exception]. *)
Definition CancelledError : exn := Exn false "" true.

(** What [asyncio.gather(..., return_exceptions=True)] puts in its result
    list for one awaitable: its return value, or the exception it raised, as
    an object. *)
Inductive gather_item :=
| Value (r : APIResponse)
| ExcObject (e : exn).

Definition item_of (o : outcome APIResponse) : gather_item :=
  match o with
  | Returns r => Value r
  | Raises e => ExcObject e
  end.

(** Child [i] completes: its outcome is stored in slot [i]. *)
Definition record_done (children : list (outcome APIResponse))
    (slots : list (option gather_item)) (i : nat)
    : list (option gather_item) :=
  match children !! i with
  | Some o => <[i := Some (item_of o)]> slots
  | None => slots
  end.

(** [await asyncio.gather(..., return_exceptions=True)] over [children],
    the children completing in the order [completion] (indices into
    [children]). The result list is delivered once every slot is filled;
    [None] stands for a gather that is still waiting for some child. *)
Definition gather (children : list (outcome APIResponse))
    (completion : list nat) : option (list gather_item) :=
  mapM id (foldl (record_done children)
                 (replicate (length children) None) completion).

(** [fetch_with_semaphore(client, url)]: [return await client.get(url)] under
    [async with semaphore] (the permit accounting is in [Limiter]). *)
Definition fetch_with_semaphore (client : transport) (sleep : sleeper)
    (url : string) : outcome APIResponse * list io_event :=
  get client sleep url default_retries.

(** [fetch_multiple_urls(urls)]. [net i] is the transport as the unit at
    index [i] sees it, [naps i] the sleeps of that unit, [completion] the
    order in which the units finish. *)
Definition fetch_multiple_urls (net : nat → transport)
    (naps : nat → sleeper) (completion : list nat) (urls : list string)
    : option (list gather_item) :=
  let tasks :=
    imap (λ i url, (fetch_with_semaphore (net i) (naps i) url).1) urls in
  gather tasks completion.

(** [AsyncHTTPClient.post]: [_request("POST", url, json=json_data)].
    [session json_data] is the transport as it answers a request that
    carries [json_data] as its JSON body. *)
Definition post (session : option string → transport) (sleep : sleeper)
    (url : string) (json_data : option string) (retries : Z)
    : outcome APIResponse * list io_event :=
  _request (session json_data) sleep "POST" url retries.

(** An [AsyncHTTPClient] object: [self.session] is [None] from [__init__]
    until [__aenter__] opens a session. *)
Record AsyncHTTPClient := mkClient { session : option transport }.

(** [AsyncHTTPClient()]. *)
Definition new_client : AsyncHTTPClient := mkClient None.

(** [__aenter__], [opened] being the [aiohttp.ClientSession] it creates. *)
Definition __aenter__ (opened : transport) (client : AsyncHTTPClient)
    : AsyncHTTPClient :=
  mkClient (Some opened).

(** What [None.request] raises. *)
Definition AttributeError_request : exn :=
  Exn true "'NoneType' object has no attribute 'request'" true.

(** [self.session.request] as [_request] evaluates it inside its [try]
    block: on a client that was never entered the attribute access on
    [None] raises [AttributeError]. *)
Definition session_request (client : AsyncHTTPClient) : transport :=
  match session client with
  | Some s => s
  | None => λ _ _ _, Raises AttributeError_request
  end.

(** [client.get(url)] on a client object. *)
Definition client_get (client : AsyncHTTPClient) (sleep : sleeper)
    (url : string) (retries : Z) : outcome APIResponse * list io_event :=
  get (session_request client) sleep url retries.

(** The seconds of [asyncio.sleep] asked for along a trace; a sleep that is
    interrupted counts in full. *)
Definition total_sleep (tr : list io_event) : Z :=
  foldr (λ ev acc, match ev with
                   | EvSleep d => d + acc
                   | EvCall _ _ _ => acc
                   end) 0 tr.



End Http.

(* ===================================================================== *)
(** ** The semaphore of [fetch_multiple_urls]                             *)
(* ===================================================================== *)

Module Limiter.

Local Open Scope nat_scope.

(** Where a unit [fetch_with_semaphore] is: blocked in [async with
    semaphore], inside [client.get] awaiting the transport call, inside
    [client.get] in the backoff [asyncio.sleep], or past the [async with]. *)
Inductive phase := Waiting | Calling | Sleeping | Finished.

#[export] Instance phase_eq_dec : EqDecision phase.
Proof. solve_decision. Defined.

(** One batch: the semaphore's counter and the phase of every unit. *)
Record batch := mkBatch { value : nat; units : list phase }.

(** [semaphore = asyncio.Semaphore(10)]. *)
Definition capacity : nat := 10.

Definition start (K n : nat) : batch := mkBatch K (replicate n Waiting).

Definition holds_permit (p : phase) : bool :=
  match p with
  | Calling | Sleeping => true
  | Waiting | Finished => false
  end.

Inductive label :=
| Acquire (i : nat)   (* [__aenter__] of the semaphore succeeds *)
| Backoff (i : nat)   (* the transport call raised, attempts remain *)
| Wake (i : nat)      (* the sleep is over, next attempt *)
| Release (i : nat).  (* [__aexit__]: return, or an exception passing by *)

(** One move of one unit; [None] when the move is not enabled. A semaphore
    whose counter is 0 lets nobody in. *)
Definition step (l : label) (b : batch) : option batch :=
  match l with
  | Acquire i =>
      match units b !! i with
      | Some Waiting =>
          match value b with
          | O => None
          | S v => Some (mkBatch v (<[i := Calling]> (units b)))
          end
      | _ => None
      end
  | Backoff i =>
      match units b !! i with
      | Some Calling => Some (mkBatch (value b) (<[i := Sleeping]> (units b)))
      | _ => None
      end
  | Wake i =>
      match units b !! i with
      | Some Sleeping => Some (mkBatch (value b) (<[i := Calling]> (units b)))
      | _ => None
      end
  | Release i =>
      match units b !! i with
      | Some p =>
          if holds_permit p
          then Some (mkBatch (S (value b)) (<[i := Finished]> (units b)))
          else None
      | None => None
      end
  end.

Fixpoint run (ls : list label) (b : batch) : option batch :=
  match ls with
  | [] => Some b
  | l :: ls' =>
      match step l b with
      | Some b' => run ls' b'
      | None => None
      end
  end.

Definition count (f : phase → bool) (b : batch) : nat :=
  length (filter (λ p, f p = true) (units b)).

Definition is_calling (p : phase) : bool := bool_decide (p = Calling).

End Limiter.

(* ===================================================================== *)
(** ** [AsyncTaskManager]                                                 *)
(* ===================================================================== *)

Module TaskManager.

Local Open Scope nat_scope.

(** The state of an [asyncio.Task]: still running, or one of the three ways
    of being done. *)
Inductive task_state :=
| Pending
| Cancelled
| Failed (e : Http.exn)
| Completed.

(** What the module's [logger] receives from the manager. *)
Inductive log_record :=
| LogStarted (task_id : string)          (* "Started task: ..." *)
| LogCancelled (task_id : string)        (* "Cancelled task: ..." *)
| LogTaskCancelled (task_id : string)    (* "Task cancelled: ..." *)
| LogTaskFailed (task_id : string) (e : Http.exn)  (* "Task failed: ..." *)
| LogTaskCompleted (task_id : string).   (* "Task completed successfully" *)

Section manager.

(** The coroutine objects handed to [start_task]. *)
Context {Coro : Type}.

(** An [asyncio.Task] object. [callbacks] holds the done callbacks; the only
    ones registered here are the closures
    [lambda t: self._task_completed(task_id, t)], kept as the [task_id] they
    captured. *)
Record task := mkTask {
  coro : Coro;
  state : task_state;
  must_cancel : bool;
  callbacks : list string
}.

(** The manager together with the event loop it runs on: task objects live
    in [loop] and are referred to by their position; [tasks] is
    [self.tasks], which holds references to them. *)
Record manager := mkManager {
  tasks : gmap string nat;
  loop : list task;
  log : list log_record
}.

(** [AsyncTaskManager()] on a loop with no task. *)
Definition init : manager := mkManager ∅ [] [].

(** [task.done()]. *)
Definition done (t : task) : bool :=
  match state t with
  | Pending => false
  | _ => true
  end.

(** [task.cancel()]: a request, honoured by the coroutine later; refused on
    a task that is done. *)
Definition cancel (t : task) : task * bool :=
  if done t then (t, false)
  else (mkTask (coro t) (state t) true (callbacks t), true).

(** [asyncio.create_task(coro)]: a new task object on the loop. *)
Definition create_task (c : Coro) (m : manager) : nat * manager :=
  (length (loop m),
   mkManager (tasks m) (loop m ++ [mkTask c Pending false []]) (log m)).

(** [task.add_done_callback(lambda t: self._task_completed(task_id, t))]. *)
Definition add_done_callback (h : nat) (task_id : string) (m : manager)
    : manager :=
  mkManager (tasks m)
    (alter (λ t, mkTask (coro t) (state t) (must_cancel t)
                   (callbacks t ++ [task_id])) h (loop m))
    (log m).

(** [AsyncTaskManager.cancel_task]. *)
Definition cancel_task (task_id : string) (m : manager) : manager * bool :=
  match tasks m !! task_id with
  | Some h =>
      match loop m !! h with
      | Some task =>
          if done task then (m, false)
          else (mkManager (tasks m) (<[h := (cancel task).1]> (loop m))
                  (log m ++ [LogCancelled task_id]), true)
      | None => (m, false)  (* no such object: a reference never dangles *)
      end
  | None => (m, false)
  end.

(** [AsyncTaskManager.start_task]. *)
Definition start_task (task_id : string) (c : Coro) (m : manager) : manager :=
  let m1 := if decide (is_Some (tasks m !! task_id))
            then (cancel_task task_id m).1 else m in
  let '(h, m2) := create_task c m1 in
  let m3 := add_done_callback h task_id m2 in
  mkManager (<[task_id := h]> (tasks m3)) (loop m3)
    (log m3 ++ [LogStarted task_id]).

(** The three-way classification at the end of [_task_completed]:
    [task.cancelled()], then the truth value of [task.exception()] (so that
    a task that failed with an exception object whose truth value is false
    is logged as completed), else success. [task.exception()] raises
    [InvalidStateError] on a task that is not done, hence [None]. *)
Definition classify (task_id : string) (t : task) : option log_record :=
  match state t with
  | Cancelled => Some (LogTaskCancelled task_id)
  | Failed e =>
      if Http.exn_bool e then Some (LogTaskFailed task_id e)
      else Some (LogTaskCompleted task_id)
  | Completed => Some (LogTaskCompleted task_id)
  | Pending => None
  end.

(** [AsyncTaskManager._task_completed(task_id, task)], [h] being the task
    object passed by the loop. The entry is deleted by name, whatever task
    it refers to. *)
Definition _task_completed (task_id : string) (h : nat) (m : manager)
    : manager :=
  let tasks' := if decide (is_Some (tasks m !! task_id))
                then delete task_id (tasks m) else tasks m in
  match loop m !! h ≫= classify task_id with
  | Some r => mkManager tasks' (loop m) (log m ++ [r])
  | None => mkManager tasks' (loop m) (log m)
  end.

(** The event loop: task [h] reaches the state [s]. Only a pending task
    does, and only a done state is reached. *)
Definition finish (h : nat) (s : task_state) (m : manager) : option manager :=
  match loop m !! h, s with
  | _, Pending => None
  | Some t, _ =>
      if done t then None
      else Some (mkManager (tasks m)
                   (<[h := mkTask (coro t) s (must_cancel t) (callbacks t)]>
                      (loop m))
                   (log m))
  | None, _ => None
  end.

(** The event loop: the done callbacks of task [h] run, each once, in
    registration order. *)
Definition run_callbacks (h : nat) (m : manager) : option manager :=
  match loop m !! h with
  | Some t =>
      if done t then
        let m' := mkManager (tasks m)
                    (<[h := mkTask (coro t) (state t) (must_cancel t) []]>
                       (loop m))
                    (log m) in
        Some (foldl (λ acc task_id, _task_completed task_id h acc)
                m' (callbacks t))
      else None
  | None => None
  end.

(** The loop of [cancel_all] over [keys], the snapshot
    [list(self.tasks.keys())]. *)
Definition cancel_all_over (keys : list string) (m : manager) : manager :=
  foldl (λ acc task_id, (cancel_task task_id acc).1) m keys.

(** [AsyncTaskManager.cancel_all]. A dict lists its keys in insertion order,
    which a finite map does not record; the order only shows in the order of
    the log records, and the properties below hold for every order. *)
Definition cancel_all (m : manager) : manager :=
  cancel_all_over (map_to_list (tasks m)).*1 m.

(** What can happen to a manager: calls of its methods by the program, and
    the two moves of the event loop. *)
Inductive event :=
| Start (task_id : string) (c : Coro)
| Cancel (task_id : string)
| CancelAll
| Finish (h : nat) (s : task_state)
| Callbacks (h : nat).

Definition apply_event (ev : event) (m : manager) : option manager :=
  match ev with
  | Start task_id c => Some (start_task task_id c m)
  | Cancel task_id => Some (cancel_task task_id m).1
  | CancelAll => Some (cancel_all m)
  | Finish h s => finish h s m
  | Callbacks h => run_callbacks h m
  end.

Fixpoint run_events (evs : list event) (m : manager) : option manager :=
  match evs with
  | [] => Some m
  | ev :: evs' =>
      match apply_event ev m with
      | Some m' => run_events evs' m'
      | None => None
      end
  end.

End manager.

Arguments task : clear implicits.
Arguments manager : clear implicits.
Arguments event : clear implicits.

End TaskManager.

(* ===================================================================== *)
(** ** [examples/agent/agent.py]: [BaseAgent] and [CodeAnalysisAgent]     *)
(* ===================================================================== *)

Module Agent.

#[local] Existing Instance Http.outcome_bind.

(** [class AgentStatus(Enum)]. *)
Inductive AgentStatus := IDLE | BUSY | ERROR | OFFLINE.

(** The values held by the [Dict[str, Any]] and [Any] of this file: JSON
    like data. A float constant is kept as its literal. *)
#[local] Unset Elimination Schemes.
Inductive value :=
| VNone
| VBool (b : bool)
| VInt (n : Z)
| VFloat (literal : string)
| VStr (s : string)
| VList (l : list value)
| VDict (d : list (string * value)).
#[local] Set Elimination Schemes.

(** [@dataclass class AgentCapability]. *)
Record AgentCapability := mkCapability {
  name : string;
  description : string;
  input_schema : value;
  output_schema : value
}.

(** [@dataclass class TaskResult]; [execution_time] is never set. *)
Record TaskResult := mkTaskResult {
  success : bool;
  data : value;
  error_message : option string;
  execution_time : option string
}.

(** The attributes of an agent object ([self.name] is [agent_name] here,
    [name] being the field of a capability). *)
Record agent := mkAgent {
  agent_id : string;
  agent_name : string;
  status : AgentStatus;
  capabilities : list AgentCapability
}.

Definition set_status (s : AgentStatus) (a : agent) : agent :=
  mkAgent (agent_id a) (agent_name a) s (capabilities a).

(** The one capability that [CodeAnalysisAgent._register_capabilities]
    registers. *)
Definition analyze_complexity_capability : AgentCapability :=
  mkCapability "analyze_complexity" "Analyze code complexity metrics"
    (VDict [("type", VStr "object");
            ("properties",
             VDict [("file_path", VDict [("type", VStr "string")]);
                    ("language", VDict [("type", VStr "string")])]);
            ("required", VList [VStr "file_path"])])
    (VDict [("type", VStr "object");
            ("properties",
             VDict [("cyclomatic_complexity",
                     VDict [("type", VStr "number")]);
                    ("lines_of_code", VDict [("type", VStr "integer")]);
                    ("function_count", VDict [("type", VStr "integer")])])]).

(** [CodeAnalysisAgent(agent_id, name)]: [BaseAgent.__init__], which ends
    with [self._register_capabilities()]. *)
Definition CodeAnalysisAgent (agent_id name : string) : agent :=
  mkAgent agent_id name IDLE [analyze_complexity_capability].

(** [BaseAgent.get_capabilities]: a copy of the list. *)
Definition get_capabilities (a : agent) : list AgentCapability :=
  capabilities a.

(** [BaseAgent.can_handle_task]. *)
Definition can_handle_task (a : agent) (task_type : string) : bool :=
  existsb (λ cap, String.eqb (name cap) task_type) (capabilities a).

(** [BaseAgent.health_check]. *)
Definition health_check (a : agent) : bool :=
  match status a with
  | OFFLINE => false
  | _ => true
  end.

(** [parameters["file_path"]] on a dict without that key raises
    [KeyError('file_path')], whose [str] is the [repr] of the key. *)
Definition KeyError_file_path : Http.exn :=
  Http.Exn true "'file_path'" true.

(** [ValueError(msg)]. *)
Definition ValueError (msg : string) : Http.exn := Http.Exn true msg true.

(** [CodeAnalysisAgent._analyze_complexity]; [sleep] is what awaiting
    [asyncio.sleep(0.1)] gives: it returns, or the cancellation of the
    caller is raised in it. *)
Definition _analyze_complexity (sleep : Http.outcome unit)
    (parameters : gmap string value) : Http.outcome value :=
  match parameters !! "file_path" with
  | None => Http.Raises KeyError_file_path
  | Some file_path =>
      _ ← sleep ;
      Http.Returns
        (VDict [("cyclomatic_complexity", VFloat "3.2");
                ("lines_of_code", VInt 156);
                ("function_count", VInt 8);
                ("file_path", file_path)])
  end.

(** [CodeAnalysisAgent.execute_task]: the agent after the call and what the
    call gives. An exception that [except Exception] does not take leaves
    the method, the status being [BUSY] by then. The logger call is left
    out. *)
Definition execute_task (sleep : Http.outcome unit) (a : agent)
    (task_type : string) (parameters : gmap string value)
    : agent * Http.outcome TaskResult :=
  if negb (can_handle_task a task_type) then
    (a, Http.Returns
          (mkTaskResult false VNone
             (Some ("Agent " +:+ agent_id a
                    +:+ " cannot handle task type: " +:+ task_type))
             None))
  else
    match (if String.eqb task_type "analyze_complexity"
           then _analyze_complexity sleep parameters
           else Http.Raises (ValueError ("Unknown task type: " +:+ task_type)))
    with
    | Http.Returns result =>
        (set_status IDLE a,
         Http.Returns (mkTaskResult true result None None))
    | Http.Raises e =>
        if Http.is_exception e then
          (set_status ERROR a,
           Http.Returns
             (mkTaskResult false VNone (Some (Http.exn_str e)) None))
        else (set_status BUSY a, Http.Raises e)
    end.

(** A series of [execute_task] calls on one agent, each with its task
    type, its parameters and what its sleep gives; a call that raises does
    not stop the caller from making the next ones. *)
Fixpoint execute_tasks
    (calls : list (Http.outcome unit * string * gmap string value))
    (a : agent) : agent :=
  match calls with
  | [] => a
  | (sleep, task_type, parameters) :: rest =>
      execute_tasks rest (execute_task sleep a task_type parameters).1
  end.

End Agent.

(* ===================================================================== *)
(** ** [examples/cli.py]: the analysis and its three output formats       *)
(* ===================================================================== *)

Module Cli.

(** What [perform_analysis] asks the file system, paths being taken as
    their [str]: [path.is_dir()] and [path.rglob("*.py")]. *)
Record filesystem := mkFilesystem {
  is_dir : string → bool;
  rglob_py : string → list string
}.

(** The dict stored per file; [complexity] is a float, kept as the text
    that [str] gives for it. *)
Record file_report := mkFileReport {
  lines : Z;
  functions : Z;
  complexity : string
}.

(** The [results] dict, by its four possible keys; a key that is absent is
    [None]. ["analysis"] is itself a dict, kept in insertion order. *)
Record results := mkResults {
  dry_run : option bool;
  path : option string;
  total_files : option Z;
  analysis : option (list (string * file_report))
}.

(** [d[k] = v] on a dict in insertion order: a key that is present keeps
    its place and gets the new value, a new key goes last. *)
Fixpoint dict_set {V} (k : string) (v : V) (d : list (string * V))
    : list (string * V) :=
  match d with
  | [] => [(k, v)]
  | (k', v') :: d' =>
      if String.eqb k' k then (k', v) :: d' else (k', v') :: dict_set k v d'
  end.

(** The mock data of line 76. *)
Definition mock_report : file_report := mkFileReport 42 3 "2.5".

(** [perform_analysis]: the results and the lines echoed. The progress bar
    is left out. *)
Definition perform_analysis (fs : filesystem) (p : string)
    (verbose dry : bool) : results * list string :=
  if dry then
    (mkResults (Some true) (Some p) None None,
     if verbose then ["DRY RUN: Would analyze files..."] else [])
  else
    let files := if is_dir fs p then rglob_py fs p else [p] in
    (mkResults None (Some p) (Some (Z.of_nat (length files)))
       (Some (foldl (λ d file_path, dict_set file_path mock_report d)
                [] files)),
     []).

(** What an output function does: the text written to the output file, if
    any, and the lines echoed. *)
Record output := mkOutput {
  written : option (string * string);
  echoed : list string
}.

(** The end of each of the three output functions: write the content to
    [output_path] and say so, or echo it. *)
Definition write_or_echo (content : string) (output_path : option string)
    : output :=
  match output_path with
  | Some file => mkOutput (Some (file, content)) ["Results saved to " +:+ file]
  | None => mkOutput None [content]
  end.

Definition newline : string :=
  String (Ascii.ascii_of_nat 10) EmptyString.

(** ["\n".join(lines)]. *)
Definition join_lines (ls : list string) : string := String.concat newline ls.

(** [results.get("analysis", {}).items()]. *)
Definition analysis_items (r : results) : list (string * file_report) :=
  default [] (analysis r).

(** [csv_lines] of [output_csv]. *)
Definition csv_lines (r : results) : list string :=
  "file,lines,functions,complexity"
  :: map (λ item, item.1 +:+ "," +:+ pretty (lines item.2) +:+ ","
                  +:+ pretty (functions item.2) +:+ ","
                  +:+ complexity item.2)
       (analysis_items r).

(** [output_csv]. *)
Definition output_csv (r : results) (output_path : option string) : output :=
  write_or_echo (join_lines (csv_lines r)) output_path.

(** [table_lines] of [output_table]. *)
Definition table_lines (r : results) : list string :=
  ["File Analysis Results";
   String.concat "" (replicate 50 "=");
   "Total files: " +:+ pretty (default 0 (total_files r));
   "Path: " +:+ default "Unknown" (path r);
   "";
   "Files analyzed:"]
  ++ map (λ item, "  " +:+ item.1 +:+ ": " +:+ pretty (lines item.2)
                  +:+ " lines, " +:+ pretty (functions item.2)
                  +:+ " functions")
       (analysis_items r).

(** [output_table]. *)
Definition output_table (r : results) (output_path : option string)
    : output :=
  write_or_echo (join_lines (table_lines r)) output_path.

(** [output_json]; [dumps] is [json.dumps(_, indent=2)]. *)
Definition output_json (dumps : results → string) (r : results)
    (output_path : option string) : output :=
  write_or_echo (dumps r) output_path.

(** [output_results]. *)
Definition output_results (dumps : results → string) (r : results)
    (output_path : option string) (format : string) (verbose : bool)
    : output :=
  if String.eqb format "json" then output_json dumps r output_path
  else if String.eqb format "csv" then output_csv r output_path
  else output_table r output_path.

End Cli.

(* ===================================================================== *)
(** ** Concrete transports and batches used in the examples               *)
(* ===================================================================== *)

Module Scenario.

Import Http.

Definition timeout_error : exn := Exn true "timeout" true.

(** An endpoint that answers 500 to every call. *)
Definition server_error : http_response :=
  mkHttpResponse 500 "text/plain" (Raises (Exn true "not json" true))
    (Returns "Internal Server Error").

Definition always_500 : transport := λ _ _ _, Returns server_error.

(** An endpoint that answers 200 with a JSON body. *)
Definition always_200 : transport := λ _ _ _,
  Returns (mkHttpResponse 200 "application/json" (Returns (Some "{}"))
             (Returns "{}")).

(** A transport whose every call times out. *)
Definition always_times_out : transport := λ _ _ _, Raises timeout_error.

(** A transport whose call is interrupted by the cancellation of the unit
    awaiting it. *)
Definition cancelled_call : transport := λ _ _ _, Raises CancelledError.

(** A transport whose first two calls time out and whose third answers
    200. *)
Definition flaky : transport := λ method url attempt,
  if attempt <? 2 then Raises timeout_error else always_200 method url attempt.

(** An endpoint that answers 502 and drops the connection while the body is
    read. *)
Definition broken_body : transport := λ _ _ _,
  Returns (mkHttpResponse 502 "text/html" (Raises (Exn true "payload" true))
             (Raises (Exn true "payload" true))).

(** An endpoint that answers 200 with the JSON document [null]. *)
Definition always_null : transport := λ _ _ _,
  Returns (mkHttpResponse 200 "application/json" (Returns None)
             (Returns "null")).

(** The sleeps of a unit that is cancelled as soon as it backs off. *)
Definition cancelled_sleep : sleeper := λ _, Raises CancelledError.

(** An [Exception] whose class makes its instances false, for instance by
    defining [__len__] to return 0. *)
Definition falsy_error : exn := Exn true "empty" false.

(** A manager tracking one running task, ["t1"]. *)
Definition one_running : TaskManager.manager unit :=
  TaskManager.start_task "t1" () TaskManager.init.

(** A directory ["src"] holding two Python files. *)
Definition project : Cli.filesystem :=
  Cli.mkFilesystem (λ p, String.eqb p "src")
    (λ _, ["src/a.py"; "src/pkg/b.py"]).

(** A manager tracking two running tasks, ["t1"] and ["t2"]. *)
Definition two_running : TaskManager.manager unit :=
  TaskManager.start_task "t2" () one_running.

End Scenario.

(* ===================================================================== *)
(** ** Properties of the HTTP client                                      *)
(* ===================================================================== *)

Section http_client.

Import Http.

Variables (session : transport) (sleep : sleeper) (method url : string)
  (retries : Z).

Abbreviation loop_on attempts last :=
  (request_loop session sleep method url retries attempts last).

Abbreviation attempt_fails k e := (attempt_fails session method url k e).

Lemma range_succ (n : Z) : 0 ≤ n → range (n + 1) = 0 :: seqZ 1 n.
Proof.
  intros Hn. unfold range. rewrite seqZ_cons by lia.
  f_equal. f_equal; lia.
Qed.

Lemma seqZ_S (a : Z) (n : nat) :
  seqZ a (Z.of_nat (S n)) = a :: seqZ (a + 1) (Z.of_nat n).
Proof. rewrite seqZ_cons by lia. f_equal. f_equal; lia. Qed.

Lemma loop_step_fail a rest last e :
  attempt_fails a e →
  (a < retries → sleep a = Returns ()) →
  loop_on (a :: rest) last =
    emit (EvCall method url a ::
            if a <? retries then [EvSleep (wait_time a)] else [])
      (loop_on rest (Some e)).
Proof.
  intros [Hb He] Hs. simpl. rewrite Hb, He.
  destruct (a <? retries) eqn:Hlt; [|done].
  apply Z.ltb_lt in Hlt. by rewrite (Hs Hlt).
Qed.

(** A loop that starts on a non-empty list of attempts starts with the
    transport call of the first of them. *)
Lemma loop_head a rest last :
  ∃ tr, (loop_on (a :: rest) last).2 = EvCall method url a :: tr.
Proof.
  simpl. destruct (try_body _) as [r|e]; [by eexists|].
  destruct (is_exception e); [|by eexists].
  destruct (a <? retries); [|by eexists].
  destruct (sleep a); by eexists.
Qed.

(** When every remaining attempt fails and no sleep is interrupted, the
    loop makes all the attempts and falls through to the final [return]
    with the exception of the last one. *)
Lemma loop_all_fail (n : nat) : ∀ a last,
  (∀ k, a ≤ k < a + Z.of_nat n → ∃ e, attempt_fails k e) →
  (∀ k, a ≤ k < retries → sleep k = Returns ()) →
  ∃ tr last',
    loop_on (seqZ a (Z.of_nat n)) last =
      (Returns (mkAPIResponse 0 None (Some (py_str last'))), tr)
    ∧ calls tr = seqZ a (Z.of_nat n)
    ∧ match n with
      | O => last' = last
      | S n' => ∃ e, last' = Some e ∧ attempt_fails (a + Z.of_nat n') e
      end.
Proof.
  induction n as [|n IH]; intros a last Hall Hsl.
  - exists [], last. by rewrite seqZ_nil.
  - destruct (Hall a) as [e He]; [lia|].
    rewrite seqZ_S, (loop_step_fail _ _ _ e He) by (intros; apply Hsl; lia).
    destruct (IH (a + 1) (Some e)) as (tr & last' & Hrun & Hcalls & Hlast).
    { intros k Hk. apply Hall. lia. }
    { intros k Hk. apply Hsl. lia. }
    rewrite Hrun. eexists _, last'. split; [reflexivity|]. split.
    + simpl. destruct (a <? retries); simpl; by rewrite Hcalls.
    + destruct n as [|n'].
      * exists e. subst last'. by rewrite Z.add_0_r.
      * destruct Hlast as (e' & -> & He'). exists e'. split; [done|].
        by replace (a + Z.of_nat (S n')) with (a + 1 + Z.of_nat n') by lia.
Qed.

(** Every backoff sleep of the loop follows the failed call of an attempt
    that is not the last one and lasts [wait_time] of that attempt; when it
    returns, the call of the next attempt follows, and when it is
    interrupted nothing follows. *)
Lemma loop_sleep (n : nat) : ∀ a last pre d suf,
  a + Z.of_nat n = retries + 1 →
  (loop_on (seqZ a (Z.of_nat n)) last).2 = pre ++ EvSleep d :: suf →
  ∃ pre' k e,
    pre = pre' ++ [EvCall method url k] ∧ a ≤ k < retries ∧
    d = wait_time k ∧ attempt_fails k e ∧
    match sleep k with
    | Returns _ => ∃ suf', suf = EvCall method url (k + 1) :: suf'
    | Raises _ => suf = []
    end.
Proof.
  induction n as [|n IH]; intros a last pre d suf Hlen Htr.
  - rewrite seqZ_nil in Htr by done. by destruct pre.
  - rewrite seqZ_S in Htr. simpl in Htr.
    destruct (try_body (session method url a)) as [r|e] eqn:Hb.
    { by destruct pre as [|? [|? ?]]. }
    destruct (is_exception e) eqn:He; [|by destruct pre as [|? [|? ?]]].
    destruct (a <? retries) eqn:Hlt.
    + apply Z.ltb_lt in Hlt.
      destruct (sleep a) as [u|e'] eqn:Hsl; simpl in Htr.
      * destruct pre as [|x [|y pre2]]; simplify_eq/=.
        -- exists [], a, e. rewrite Hsl. split_and!; try done; try lia.
           destruct n as [|n']; [lia|].
           rewrite seqZ_S. apply loop_head.
        -- destruct (IH (a + 1) (Some e) pre2 d suf) as
             (pre' & k & e0 & -> & Hk & Hd & Hf & Hs); [lia|done|].
           exists (EvCall method url a :: EvSleep (wait_time a) :: pre'), k, e0.
           split_and!; try done; lia.
      * destruct pre as [|x [|y [|z pre2]]]; simplify_eq/=.
        exists [], a, e. rewrite Hsl. split_and!; try done; lia.
    + apply Z.ltb_ge in Hlt. assert (n = O) as -> by lia.
      rewrite seqZ_nil in Htr by done. by destruct pre as [|? [|? ?]].
Qed.

End http_client.

(** C3, as stated, fails: a response with status >= 400 whose body cannot
    be read is no rejection. Its body is read inside the [try] block, the
    error of the read is taken by [except Exception], and the request is
    tried again: here four calls are made and the caller gets status 0, not
    502. *)
Lemma rejection_with_unreadable_body_is_retried :
  (∃ resp, Scenario.broken_body "GET" "http://h/x" 0 = Http.Returns resp
           ∧ Http.resp_status resp = 502)
  ∧ Http._request Scenario.broken_body Http.uninterrupted "GET" "http://h/x" 3
    = (Http.Returns (Http.mkAPIResponse 0 None (Some "payload")),
       [Http.EvCall "GET" "http://h/x" 0; Http.EvSleep 1;
        Http.EvCall "GET" "http://h/x" 1; Http.EvSleep 2;
        Http.EvCall "GET" "http://h/x" 2; Http.EvSleep 4;
        Http.EvCall "GET" "http://h/x" 3])
  ∧ ¬ (∀ (session : Http.transport) (sleep : Http.sleeper)
         (method url : string) (retries : Z) (resp : Http.http_response),
         0 ≤ retries →
         session method url 0 = Http.Returns resp →
         400 ≤ Http.resp_status resp →
         ∃ body,
           Http._request session sleep method url retries =
             (Http.Returns
                (Http.mkAPIResponse (Http.resp_status resp) None (Some body)),
              [Http.EvCall method url 0])).
Proof.
  split_and!.
  - by eexists.
  - reflexivity.
  - intros H.
    destruct (H Scenario.broken_body Http.uninterrupted "GET" "http://h/x" 3
                _ ltac:(lia) eq_refl ltac:(simpl; lia)) as [body Hb].
    discriminate Hb.
Qed.

(** C3, amended. When the transport call of [_request] returns a response
    with status >= 400 whose body reads as [body], [_request] makes that one
    call and nothing else (no sleep, no second attempt) and returns at once
    the response with the same status, [body] as its error and no data. *)
Theorem request_rejection_not_retried
    (session : Http.transport) (sleep : Http.sleeper) (method url : string)
    (retries : Z) (resp : Http.http_response) (body : string) :
  0 ≤ retries →
  session method url 0 = Http.Returns resp →
  400 ≤ Http.resp_status resp →
  Http.text resp = Http.Returns body →
  Http._request session sleep method url retries =
    (Http.Returns (Http.mkAPIResponse (Http.resp_status resp) None (Some body)),
     [Http.EvCall method url 0]).
Proof.
  intros Hr Hcall Hst Htext. unfold Http._request.
  rewrite range_succ by done. simpl. unfold Http.try_body.
  rewrite Hcall. simpl.
  destruct (Http.resp_status resp <? 400) eqn:Hlt.
  - apply Z.ltb_lt in Hlt. lia.
  - by rewrite Htext.
Qed.

Lemma request_rejection_not_retried_witness :
  Http._request Scenario.always_500 Scenario.cancelled_sleep
    "GET" "http://h/x" 3 =
  (Http.Returns (Http.mkAPIResponse 500 None (Some "Internal Server Error")),
   [Http.EvCall "GET" "http://h/x" 0]).
Proof.
  apply (request_rejection_not_retried Scenario.always_500
           Scenario.cancelled_sleep "GET" "http://h/x"
           3 Scenario.server_error "Internal Server Error");
    [lia | reflexivity | simpl; lia | reflexivity].
Defined.




(** C5. The backoff is the function [wait_time attempt = 1 * 2 ^ attempt] of
    the attempt number alone: 1, 2, 4 for attempts 0, 1, 2, doubling at each
    attempt. In the trace of [_request] every sleep comes right after the
    transport call of an attempt [k] that failed and is not the last one
    ([k < retries]) and lasts [wait_time k]; it is followed by the call of
    attempt [k + 1] (or, if the sleep itself is interrupted, by nothing):
    no sleep before the first call, none after the last. *)
Theorem backoff_policy :
  (∀ attempt, 0 ≤ attempt →
     Http.wait_time attempt = 1 * 2 ^ attempt
     ∧ Http.wait_time (attempt + 1) = 2 * Http.wait_time attempt)
  ∧ Http.wait_time 0 = 1 ∧ Http.wait_time 1 = 2 ∧ Http.wait_time 2 = 4
  ∧ ∀ (session : Http.transport) (sleep : Http.sleeper)
      (method url : string) (retries : Z)
      (pre : list Http.io_event) (d : Z) (suf : list Http.io_event),
      (Http._request session sleep method url retries).2 =
        pre ++ Http.EvSleep d :: suf →
      ∃ pre' k e,
        pre = pre' ++ [Http.EvCall method url k] ∧ 0 ≤ k < retries
        ∧ d = Http.wait_time k
        ∧ Http.attempt_fails session method url k e
        ∧ match sleep k with
          | Http.Returns _ =>
              ∃ suf', suf = Http.EvCall method url (k + 1) :: suf'
          | Http.Raises _ => suf = []
          end.
Proof.
  split_and!; try reflexivity.
  - intros attempt Ha. unfold Http.wait_time. split; [lia|].
    by rewrite Z.pow_add_r, Z.mul_comm by lia.
  - intros session sleep method url retries pre d suf. unfold Http._request.
    destruct (decide (0 ≤ retries + 1)) as [Hr|Hr].
    + unfold Http.range. rewrite <- (Z2Nat.id (retries + 1)) at 1 by done.
      apply loop_sleep. rewrite Z2Nat.id by done. lia.
    + unfold Http.range. rewrite seqZ_nil by lia. by destruct pre.
Qed.

Lemma backoff_policy_witness :
  ∃ pre' k e,
    [Http.EvCall "GET" "http://h/x" 0; Http.EvSleep 1;
     Http.EvCall "GET" "http://h/x" 1] =
      pre' ++ [Http.EvCall "GET" "http://h/x" k]
    ∧ 0 ≤ k < 2
    ∧ 2 = Http.wait_time k
    ∧ Http.attempt_fails Scenario.always_times_out "GET" "http://h/x" k e
    ∧ match Http.uninterrupted k with
      | Http.Returns _ =>
          ∃ suf', [Http.EvCall "GET" "http://h/x" 2] =
                    Http.EvCall "GET" "http://h/x" (k + 1) :: suf'
      | Http.Raises _ => [Http.EvCall "GET" "http://h/x" 2] = []
      end.
Proof.
  apply (proj2 (proj2 (proj2 (proj2 backoff_policy)))
           Scenario.always_times_out Http.uninterrupted "GET" "http://h/x" 2
           [Http.EvCall "GET" "http://h/x" 0; Http.EvSleep 1;
            Http.EvCall "GET" "http://h/x" 1]
           2 [Http.EvCall "GET" "http://h/x" 2]).
  reflexivity.
Defined.

(** C6, as stated, fails, in two ways. An exception that is not an instance
    of [Exception] (here the [CancelledError] of a unit cancelled during
    its transport call) passes through [except Exception]; and whatever is
    raised in the backoff sleep, which is awaited in the handler and not in
    the [try] block, leaves [_request] too, although the transport raised
    nothing but [Exception]s. *)
Lemma request_cancellation_propagates :
  Http._request Scenario.cancelled_call Http.uninterrupted
    "GET" "http://h/x" 3 =
    (Http.Raises Http.CancelledError, [Http.EvCall "GET" "http://h/x" 0])
  ∧ Http._request Scenario.always_times_out Scenario.cancelled_sleep
      "GET" "http://h/x" 3 =
    (Http.Raises Http.CancelledError,
     [Http.EvCall "GET" "http://h/x" 0; Http.EvSleep 1])
  ∧ ¬ (∀ (session : Http.transport) (sleep : Http.sleeper)
         (method url : string) (retries : Z),
         ∃ r, (Http._request session sleep method url retries).1
              = Http.Returns r).
Proof.
  split; [reflexivity|]. split; [reflexivity|].
  intros H.
  destruct (H Scenario.cancelled_call Http.uninterrupted "GET" "http://h/x" 3)
    as [r Hr].
  discriminate Hr.
Qed.

(** C6, amended. When every exception raised during an attempt, that is in
    the [try] block, is an instance of [Exception], and no backoff sleep is
    interrupted, [_request] raises nothing: it returns a response, which is
    a success (status < 400, no error; its data is the decoded body, [None]
    when that is the JSON document [null]), a rejection (status >= 400, the
    body as error, no data) or the exhaustion response (status 0, an error,
    no data). *)
Theorem request_never_raises
    (session : Http.transport) (sleep : Http.sleeper) (method url : string)
    (retries : Z) :
  (∀ k e, Http.try_body (session method url k) = Http.Raises e →
          Http.is_exception e = true) →
  (∀ k, 0 ≤ k < retries → sleep k = Http.Returns ()) →
  ∃ r tr,
    Http._request session sleep method url retries = (Http.Returns r, tr)
    ∧ ((Http.status r < 400 ∧ Http.error r = None)
       ∨ (400 ≤ Http.status r ∧ Http.data r = None
          ∧ is_Some (Http.error r))
       ∨ (Http.status r = 0 ∧ Http.data r = None
          ∧ is_Some (Http.error r))).
Proof.
  intros Hexc Hsl. unfold Http._request.
  assert (∀ k, k ∈ Http.range (retries + 1) → 0 ≤ k) as Hpos.
  { intros k Hk. unfold Http.range in Hk. apply elem_of_seqZ in Hk. lia. }
  revert Hpos.
  generalize (Http.range (retries + 1)) (@None Http.exn).
  intros attempts. induction attempts as [|a rest IH]; intros last Hpos; simpl.
  - eexists _, _. split; [done|]. right; right. simpl. eauto.
  - destruct (Http.try_body (session method url a)) as [r|e] eqn:Hb.
    + eexists _, _. split; [done|].
      unfold Http.try_body in Hb.
      destruct (session method url a) as [resp|]; simplify_eq/=.
      destruct (Http.resp_status resp <? 400) eqn:Hlt.
      * apply Z.ltb_lt in Hlt. left.
        destruct (String.eqb _ _);
          [destruct (Http.json resp)|destruct (Http.text resp)];
          simplify_eq/=; eauto.
      * apply Z.ltb_ge in Hlt. right; left.
        destruct (Http.text resp); simplify_eq/=; eauto.
    + rewrite (Hexc _ _ Hb).
      destruct (IH (Some e)) as (r & tr & -> & Hr).
      { intros k Hk. apply Hpos. by apply list_elem_of_further. }
      destruct (a <? retries) eqn:Hlt.
      * apply Z.ltb_lt in Hlt. rewrite Hsl.
        -- eexists _, _. by split.
        -- split; [|done]. apply Hpos, list_elem_of_here.
      * eexists _, _. by split.
Qed.

Lemma request_never_raises_witness :
  ∃ r tr,
    Http._request Scenario.always_times_out Http.uninterrupted
      "GET" "http://h/x" 3 = (Http.Returns r, tr)
    ∧ ((Http.status r < 400 ∧ Http.error r = None)
       ∨ (400 ≤ Http.status r ∧ Http.data r = None
          ∧ is_Some (Http.error r))
       ∨ (Http.status r = 0 ∧ Http.data r = None
          ∧ is_Some (Http.error r))).
Proof.
  apply (request_never_raises Scenario.always_times_out Http.uninterrupted
           "GET" "http://h/x" 3).
  - intros k e H. unfold Scenario.always_times_out in H. simpl in H.
    injection H as <-. reflexivity.
  - intros k _. reflexivity.
Defined.

(* ===================================================================== *)
(** ** Properties of the fan-out dispatcher                               *)
(* ===================================================================== *)

Section dispatcher.

Import Http.

(** After the children listed in [completion] have completed, in that order,
    the slot of each of them holds its own outcome and the other slots are
    untouched. *)
Lemma foldl_record_done (children : list (outcome APIResponse))
    (completion : list nat) : ∀ slots : list (option gather_item),
  length slots = length children →
  length (foldl (record_done children) slots completion) = length children
  ∧ ∀ i : nat,
      foldl (record_done children) slots completion !! i =
        if decide (i ∈ completion)
        then (λ o, Some (item_of o)) <$> children !! i
        else slots !! i.
Proof.
  induction completion as [|x l IH]; intros slots Hlen; simpl.
  - split; [done|]. intros i.
    by destruct (decide (i ∈ [])) as [?%elem_of_nil|].
  - assert (length (record_done children slots x) = length children) as Hlen'.
    { unfold record_done. destruct (children !! x); [|done].
      by rewrite length_insert. }
    destruct (IH _ Hlen') as [Hl Hi]. split; [done|].
    intros i. rewrite Hi.
    destruct (decide (i ∈ l)) as [Hin|Hnin].
    { destruct (decide (i ∈ x :: l)) as [|Hn]; [done|].
      by destruct Hn; apply elem_of_cons; right. }
    destruct (decide (i = x)) as [->|Hne].
    + destruct (decide (x ∈ x :: l)) as [|Hn];
        [|by destruct Hn; apply elem_of_cons; left].
      unfold record_done.
      destruct (children !! x) as [o|] eqn:Hx; simpl.
      * apply list_lookup_insert_eq. rewrite Hlen.
        by eapply lookup_lt_Some.
      * apply lookup_ge_None. rewrite Hlen. by apply lookup_ge_None.
    + destruct (decide (i ∈ x :: l)) as [[?|?]%elem_of_cons|]; [done..|].
      unfold record_done. destruct (children !! x); [|done].
      by rewrite list_lookup_insert_ne.
Qed.

Lemma mapM_id_Some {A} (l : list A) : mapM id (Some <$> l) = Some l.
Proof.
  induction l as [|x l IH]; [done|].
  rewrite fmap_cons. cbn [mapM]. by rewrite IH.
Qed.

(** Once every child has completed, in whatever order, [gather] delivers
    the outcomes in the order of the children. *)
Lemma gather_all_done (children : list (outcome APIResponse))
    (completion : list nat) :
  (∀ i : nat, (i < length children)%nat → i ∈ completion) →
  gather children completion = Some (item_of <$> children).
Proof.
  intros Hall. unfold gather.
  destruct (foldl_record_done children completion
              (replicate (length children) None)) as [Hl Hi].
  { by rewrite length_replicate. }
  rewrite <- mapM_id_Some. f_equal.
  apply list_eq. intros i. rewrite Hi, !list_lookup_fmap.
  destruct (decide (i ∈ completion)) as [Hin|Hnin].
  - by destruct (children !! i).
  - assert (length children ≤ i)%nat as Hge.
    { destruct (decide (length children ≤ i)%nat); [done|].
      destruct Hnin. apply Hall. lia. }
    rewrite (proj1 (lookup_replicate_None _ _ _) Hge).
    by rewrite (proj2 (lookup_ge_None children i) Hge).
Qed.

(** The list that [fetch_multiple_urls] returns once all units are done. *)
Lemma fetch_multiple_urls_results (net : nat → transport)
    (naps : nat → sleeper) (completion : list nat) (urls : list string) :
  completion ≡ₚ seq 0 (length urls) →
  ∃ responses,
    fetch_multiple_urls net naps completion urls = Some responses
    ∧ length responses = length urls
    ∧ ∀ (i : nat) url, urls !! i = Some url →
        responses !! i =
          Some (item_of (get (net i) (naps i) url default_retries).1).
Proof.
  intros Hperm. unfold fetch_multiple_urls.
  rewrite gather_all_done.
  2:{ intros i Hi. rewrite length_imap in Hi. rewrite Hperm.
      apply elem_of_seq. lia. }
  eexists. split_and!; [done| |].
  - by rewrite length_fmap, length_imap.
  - intros i url Hu. by rewrite list_lookup_fmap, list_lookup_imap, Hu.
Qed.

End dispatcher.




(** C2. What the code does with a unit that raises: for every batch and
    every completion order, the exception [e] that the unit at index [i]
    raises is captured and the results of the other units are their own,
    but the element at index [i] is the exception object [e] itself; no
    response with status 0 (no response at all) is put in its place. *)
Theorem fetch_multiple_urls_raw_exception
    (net : nat → Http.transport) (naps : nat → Http.sleeper)
    (completion : list nat) (urls : list string) (i : nat) (url : string)
    (e : Http.exn) :
  completion ≡ₚ seq 0 (length urls) →
  urls !! i = Some url →
  (Http.fetch_with_semaphore (net i) (naps i) url).1 = Http.Raises e →
  ∃ responses,
    Http.fetch_multiple_urls net naps completion urls = Some responses
    ∧ length responses = length urls
    ∧ responses !! i = Some (Http.ExcObject e)
    ∧ (∀ r, responses !! i ≠ Some (Http.Value r))
    ∧ (∀ (j : nat) url', j ≠ i → urls !! j = Some url' →
         responses !! j =
           Some (Http.item_of
                   (Http.fetch_with_semaphore (net j) (naps j) url').1)).
Proof.
  intros Hperm Hu Hraise.
  destruct (fetch_multiple_urls_results net naps completion urls Hperm)
    as (responses & Hrun & Hlen & Hi).
  assert (responses !! i = Some (Http.ExcObject e)) as Hexc.
  { rewrite (Hi i url Hu). unfold Http.fetch_with_semaphore in Hraise.
    by rewrite Hraise. }
  exists responses. split_and!; try done.
  - intros r. by rewrite Hexc.
  - intros j url' _ Hj. by apply Hi.
Qed.

Lemma fetch_multiple_urls_raw_exception_witness :
  Http.fetch_multiple_urls
    (λ i, if decide (i = 1%nat) then Scenario.cancelled_call
          else Scenario.always_200)
    (λ _, Http.uninterrupted)
    [2; 0; 1]%nat ["http://h/a"; "http://h/b"; "http://h/c"] =
  Some [Http.Value (Http.mkAPIResponse 200 (Some (Http.JsonData "{}")) None);
        Http.ExcObject Http.CancelledError;
        Http.Value (Http.mkAPIResponse 200 (Some (Http.JsonData "{}")) None)]
  ∧ ∃ responses,
      Http.fetch_multiple_urls
        (λ i, if decide (i = 1%nat) then Scenario.cancelled_call
              else Scenario.always_200)
        (λ _, Http.uninterrupted)
        [2; 0; 1]%nat ["http://h/a"; "http://h/b"; "http://h/c"] =
        Some responses
      ∧ responses !! 1%nat = Some (Http.ExcObject Http.CancelledError)
      ∧ ∀ r, responses !! 1%nat ≠ Some (Http.Value r).
Proof.
  split; [reflexivity|].
  destruct (fetch_multiple_urls_raw_exception
              (λ i, if decide (i = 1%nat) then Scenario.cancelled_call
                    else Scenario.always_200)
              (λ _, Http.uninterrupted)
              [2; 0; 1]%nat ["http://h/a"; "http://h/b"; "http://h/c"]
              1%nat "http://h/b" Http.CancelledError)
    as (responses & Hrun & _ & Hexc & Hraw & _).
  - apply (Permutation_cons_append [0; 1]%nat 2%nat).
  - reflexivity.
  - reflexivity.
  - exists responses. split_and!; assumption.
Defined.

(* ===================================================================== *)
(** ** Properties of the semaphore                                        *)
(* ===================================================================== *)

Section limiter.

Import Limiter.
Local Open Scope nat_scope.

Abbreviation tally f l := (length (filter (λ p : phase, f p = true) l)).

Lemma tally_insert (f : phase → bool) (q : phase) (l : list phase) :
  ∀ (i : nat) (p : phase), l !! i = Some p →
  tally f (<[i := q]> l) + (if f p then 1 else 0) =
  tally f l + (if f q then 1 else 0).
Proof.
  induction l as [|x l IH]; intros [|i] p Hp; simplify_eq/=.
  - rewrite !filter_cons. destruct (f p), (f q); simpl; lia.
  - rewrite !filter_cons. specialize (IH i p Hp).
    destruct (decide (f x = true)); simpl; lia.
Qed.

Lemma tally_replicate_waiting (f : phase → bool) (n : nat) :
  f Waiting = false → tally f (replicate n Waiting) = 0.
Proof.
  intros Hf. induction n as [|n IH]; [done|]. simpl.
  rewrite filter_cons, Hf. by destruct (decide (false = true)).
Qed.

Lemma tally_le (f g : phase → bool) (l : list phase) :
  (∀ p, f p = true → g p = true) → tally f l ≤ tally g l.
Proof.
  intros Hfg. induction l as [|x l IH]; [done|].
  rewrite !filter_cons.
  destruct (decide (f x = true)) as [Hf|Hf].
  - rewrite decide_True by auto. simpl. lia.
  - destruct (decide (g x = true)); simpl; lia.
Qed.

(** Every move keeps the sum of the free permits and the permits held. *)
Lemma step_permits (l : label) (b b' : batch) :
  step l b = Some b' →
  value b' + count holds_permit b' = value b + count holds_permit b.
Proof.
  unfold count.
  destruct l as [i|i|i|i]; simpl; intros Hstep;
    destruct (units b !! i) as [p|] eqn:Hp; try done.
  - destruct p; try done. destruct (value b) as [|v]; simplify_eq/=.
    pose proof (tally_insert holds_permit Calling _ _ _ Hp). simpl in *. lia.
  - destruct p; simplify_eq/=.
    pose proof (tally_insert holds_permit Sleeping _ _ _ Hp). simpl in *. lia.
  - destruct p; simplify_eq/=.
    pose proof (tally_insert holds_permit Calling _ _ _ Hp). simpl in *. lia.
  - destruct (holds_permit p) eqn:Hh; simplify_eq/=.
    pose proof (tally_insert holds_permit Finished _ _ _ Hp).
    rewrite Hh in *. simpl in *. lia.
Qed.

Lemma run_permits (ls : list label) : ∀ b b',
  run ls b = Some b' →
  value b' + count holds_permit b' = value b + count holds_permit b.
Proof.
  induction ls as [|l ls IH]; intros b b' Hrun; simplify_eq/=; [done|].
  destruct (step l b) as [b1|] eqn:Hstep; [|done].
  rewrite (IH _ _ Hrun). by apply (step_permits l).
Qed.

(** With no free permit, no move takes a unit out of [Waiting]. *)
Lemma step_keeps_waiting (l : label) (b b' : batch) (i : nat) :
  step l b = Some b' → value b = 0 →
  units b !! i = Some Waiting → units b' !! i = Some Waiting.
Proof.
  intros Hstep Hv Hi.
  destruct l as [j|j|j|j]; simpl in Hstep;
    destruct (units b !! j) as [p|] eqn:Hp; try done.
  - destruct p; try done. by rewrite Hv in Hstep.
  - destruct p; simplify_eq/=.
    rewrite list_lookup_insert_ne; [done|]. intros ->. congruence.
  - destruct p; simplify_eq/=.
    rewrite list_lookup_insert_ne; [done|]. intros ->. congruence.
  - destruct (holds_permit p) eqn:Hh; simplify_eq/=.
    rewrite list_lookup_insert_ne; [done|]. intros ->.
    rewrite Hi in Hp. by simplify_eq.
Qed.

End limiter.

(** C9. In every state a batch of [n] units can reach under a semaphore of
    capacity [K] (10 in [fetch_multiple_urls]), the free permits and the
    permits held add up to [K], so at most [K] units are in the transport
    call; a unit gets a permit only while fewer than [K] hold one, and
    once [K] units hold one, every unit that waits keeps waiting whatever
    moves next, until a permit is released. *)
Theorem limiter_bound (K n : nat) (ls : list Limiter.label)
    (b : Limiter.batch) :
  Limiter.run ls (Limiter.start K n) = Some b →
  (Limiter.value b + Limiter.count Limiter.holds_permit b = K)%nat
  ∧ (Limiter.count Limiter.is_calling b ≤ K)%nat
  ∧ (∀ i b', Limiter.step (Limiter.Acquire i) b = Some b' →
       (Limiter.count Limiter.holds_permit b < K)%nat)
  ∧ ((Limiter.count Limiter.holds_permit b = K)%nat →
     ∀ l b' (i : nat), Limiter.step l b = Some b' →
       Limiter.units b !! i = Some Limiter.Waiting →
       Limiter.units b' !! i = Some Limiter.Waiting)
  ∧ (K = Limiter.capacity →
     (Limiter.count Limiter.is_calling b ≤ 10)%nat).
Proof.
  intros Hrun.
  assert (Limiter.value b + Limiter.count Limiter.holds_permit b = K)%nat
    as Hinv.
  { rewrite (run_permits _ _ _ Hrun). unfold Limiter.count, Limiter.start.
    simpl. rewrite tally_replicate_waiting by done. lia. }
  assert (Limiter.count Limiter.is_calling b
          ≤ Limiter.count Limiter.holds_permit b)%nat as Hle
    by (apply tally_le; by intros []).
  split_and!.
  - done.
  - lia.
  - intros i b' Hstep. simpl in Hstep.
    destruct (Limiter.units b !! i) as [[]|]; try done.
    destruct (Limiter.value b); [done|lia].
  - intros Hfull l b' i Hstep Hi.
    eapply step_keeps_waiting; [done| |done]. lia.
  - intros ->. unfold Limiter.capacity in Hinv. lia.
Qed.

Lemma limiter_bound_witness :
  (Limiter.count Limiter.is_calling
     (Limiter.mkBatch 0
        [Limiter.Calling; Limiter.Sleeping; Limiter.Waiting;
         Limiter.Waiting; Limiter.Waiting]) ≤ 2)%nat
  ∧ Limiter.step (Limiter.Acquire 2)
      (Limiter.mkBatch 0
         [Limiter.Calling; Limiter.Sleeping; Limiter.Waiting;
          Limiter.Waiting; Limiter.Waiting]) = None.
Proof.
  split; [|reflexivity].
  apply (limiter_bound 2 5
           [Limiter.Acquire 0; Limiter.Acquire 1; Limiter.Backoff 1]).
  reflexivity.
Defined.

(* ===================================================================== *)
(** ** Properties of the task manager                                     *)
(* ===================================================================== *)

Section task_manager.

Import TaskManager.
Local Open Scope nat_scope.

Context {Coro : Type}.
Implicit Types (m : manager Coro) (t : task Coro) (task_id : string).

Lemma cancel_task_length task_id m :
  length (loop (cancel_task task_id m).1) = length (loop m).
Proof.
  unfold cancel_task. destruct (tasks m !! task_id) as [h|]; [|done].
  destruct (loop m !! h) as [t|]; [|done].
  destruct (done t); [done|]. simpl. by rewrite length_insert.
Qed.

Lemma cancel_task_tasks task_id m :
  tasks (cancel_task task_id m).1 = tasks m.
Proof.
  unfold cancel_task. destruct (tasks m !! task_id) as [h|]; [|done].
  destruct (loop m !! h) as [t|]; [|done]. by destruct (done t).
Qed.

Lemma alter_last {A} (f : A → A) (l : list A) (x : A) :
  alter f (length l) (l ++ [x]) = l ++ [f x].
Proof.
  induction l as [|y l IH]; [done|].
  change (y :: alter f (length l) (l ++ [x]) = y :: l ++ [f x]).
  by rewrite IH.
Qed.

Lemma insert_last {A} (l : list A) (x y : A) :
  <[length l := y]> (l ++ [x]) = l ++ [y].
Proof. induction l as [|z l IH]; [done|]. simpl. by rewrite IH. Qed.

Lemma lookup_last {A} (l : list A) (x : A) : (l ++ [x]) !! length l = Some x.
Proof. induction l as [|z l IH]; [done|]. apply IH. Qed.

(** [start_task] as one update of the state [m1] that [cancel_task] (or
    nothing, for a new name) leaves. *)
Lemma start_task_unfold task_id (c : Coro) m :
  start_task task_id c m =
    let m1 := if decide (is_Some (tasks m !! task_id))
              then (cancel_task task_id m).1 else m in
    mkManager (<[task_id := length (loop m1)]> (tasks m1))
      (loop m1 ++ [mkTask c Pending false [task_id]])
      (log m1 ++ [LogStarted task_id]).
Proof.
  unfold start_task, create_task, add_done_callback. simpl.
  by rewrite alter_last.
Qed.

End task_manager.

(** C7. [cancel_task(task_id)] returns [True] exactly when [task_id] is in
    [self.tasks] and the task it names is not done; it then requests the
    cancellation of that task and changes nothing else but the log. It
    returns [False] for an unknown name and for a task that is done, and
    then leaves the manager and every task as they were. *)
Theorem cancel_task_spec {Coro : Type}
    (m : TaskManager.manager Coro) (task_id : string) :
  let m' := (TaskManager.cancel_task task_id m).1 in
  let b := (TaskManager.cancel_task task_id m).2 in
  (b = true ↔
     ∃ h t, TaskManager.tasks m !! task_id = Some h
            ∧ TaskManager.loop m !! h = Some t
            ∧ TaskManager.done t = false)
  ∧ (∀ h t, TaskManager.tasks m !! task_id = Some h →
        TaskManager.loop m !! h = Some t →
        TaskManager.done t = false →
        b = true
        ∧ TaskManager.loop m' =
            <[h := TaskManager.mkTask (TaskManager.coro t)
                     (TaskManager.state t) true (TaskManager.callbacks t)]>
              (TaskManager.loop m)
        ∧ TaskManager.tasks m' = TaskManager.tasks m
        ∧ TaskManager.log m' =
            TaskManager.log m ++ [TaskManager.LogCancelled task_id])
  ∧ (b = false → m' = m)
  ∧ (TaskManager.tasks m !! task_id = None → b = false)
  ∧ (∀ h t, TaskManager.tasks m !! task_id = Some h →
        TaskManager.loop m !! h = Some t →
        TaskManager.done t = true → b = false).
Proof.
  unfold TaskManager.cancel_task.
  destruct (TaskManager.tasks m !! task_id) as [h|] eqn:Hh; simpl.
  { destruct (TaskManager.loop m !! h) as [t|] eqn:Ht; simpl.
    - destruct (TaskManager.done t) eqn:Hd; simpl.
      + split_and!; try done; try (by intros; simplify_eq; congruence).
        split; [done|]. intros (? & ? & ? & ? & ?). simplify_eq. congruence.
      + split_and!; try done; try (by intros; simplify_eq; congruence).
        * split; [|done]. intros _. by exists h, t.
        * intros ? ? ? ? _. simplify_eq. unfold TaskManager.cancel.
          by rewrite Hd.
    - split_and!; try done; try (by intros; simplify_eq).
      split; [done|]. intros (? & ? & ? & ? & _). by simplify_eq. }
  split_and!; try done. split; [done|]. by intros (? & ? & ? & _).
Qed.

Lemma cancel_task_spec_witness :
  (TaskManager.cancel_task "t1" Scenario.one_running).2 = true
  ∧ (TaskManager.cancel_task "t2" Scenario.one_running).2 = false.
Proof.
  split.
  - exact (proj1 (proj1 (proj2 (cancel_task_spec Scenario.one_running "t1"))
                    0%nat _ eq_refl eq_refl eq_refl)).
  - exact (proj1 (proj2 (proj2 (proj2
             (cancel_task_spec Scenario.one_running "t2")))) eq_refl).
Defined.

(** C8. [start_task(task_id, coro)] on a name that is already in
    [self.tasks] first runs [cancel_task(task_id)] on the manager as it is,
    the old task still being the one tracked: an old task that is not done
    gets its cancellation requested (and stays on the loop). Only then is
    the new task created, pending and running [coro], given the done
    callback for [task_id], and stored under [task_id] in place of the old
    one. *)
Theorem start_task_cancels_then_replaces {Coro : Type}
    (m : TaskManager.manager Coro) (task_id : string) (c : Coro)
    (h_old : nat) :
  TaskManager.tasks m !! task_id = Some h_old →
  let m1 := (TaskManager.cancel_task task_id m).1 in
  let m' := TaskManager.start_task task_id c m in
  let h_new := length (TaskManager.loop m) in
  TaskManager.tasks m1 !! task_id = Some h_old
  ∧ m' = TaskManager.mkManager
           (<[task_id := h_new]> (TaskManager.tasks m1))
           (TaskManager.loop m1
              ++ [TaskManager.mkTask c TaskManager.Pending false [task_id]])
           (TaskManager.log m1 ++ [TaskManager.LogStarted task_id])
  ∧ TaskManager.tasks m' !! task_id = Some h_new
  ∧ TaskManager.loop m' !! h_new =
      Some (TaskManager.mkTask c TaskManager.Pending false [task_id])
  ∧ (∀ t, TaskManager.loop m !! h_old = Some t →
       TaskManager.done t = false →
       h_old ≠ h_new
       ∧ TaskManager.loop m1 !! h_old =
           Some (TaskManager.mkTask (TaskManager.coro t)
                   (TaskManager.state t) true (TaskManager.callbacks t))
       ∧ TaskManager.loop m' !! h_old =
           Some (TaskManager.mkTask (TaskManager.coro t)
                   (TaskManager.state t) true (TaskManager.callbacks t))
       ∧ TaskManager.log m' =
           TaskManager.log m
             ++ [TaskManager.LogCancelled task_id;
                 TaskManager.LogStarted task_id]).
Proof.
  intros Hold m1 m' h_new.
  assert (m' = TaskManager.mkManager
           (<[task_id := h_new]> (TaskManager.tasks m1))
           (TaskManager.loop m1
              ++ [TaskManager.mkTask c TaskManager.Pending false [task_id]])
           (TaskManager.log m1 ++ [TaskManager.LogStarted task_id])) as Hm'.
  { subst m' m1 h_new. rewrite start_task_unfold.
    rewrite decide_True by (by rewrite Hold). simpl.
    by rewrite cancel_task_length. }
  assert (length (TaskManager.loop m1) = h_new) as Hlen
    by apply cancel_task_length.
  split_and!.
  - subst m1. by rewrite cancel_task_tasks.
  - done.
  - rewrite Hm'. simpl. apply lookup_insert_eq.
  - rewrite Hm'. simpl. rewrite <- Hlen. apply lookup_last.
  - intros t Ht Hd.
    assert (h_old < h_new)%nat as Hlt by (by eapply lookup_lt_Some).
    assert (TaskManager.loop m1 =
              <[h_old := TaskManager.mkTask (TaskManager.coro t)
                   (TaskManager.state t) true (TaskManager.callbacks t)]>
                (TaskManager.loop m)
            ∧ TaskManager.log m1 =
                TaskManager.log m ++ [TaskManager.LogCancelled task_id])
      as [Hloop Hlog].
    { subst m1. unfold TaskManager.cancel_task.
      rewrite Hold, Ht, Hd. simpl. unfold TaskManager.cancel.
      by rewrite Hd. }
    assert (TaskManager.loop m1 !! h_old =
              Some (TaskManager.mkTask (TaskManager.coro t)
                      (TaskManager.state t) true (TaskManager.callbacks t)))
      as Hc.
    { rewrite Hloop. by apply list_lookup_insert_eq. }
    split_and!.
    + lia.
    + done.
    + rewrite Hm'. simpl. rewrite lookup_app_l by lia. done.
    + rewrite Hm'. simpl. rewrite Hlog. by rewrite <- app_assoc.
Qed.

Lemma start_task_cancels_then_replaces_witness :
  TaskManager.tasks (TaskManager.start_task "t1" () Scenario.one_running)
    !! "t1" = Some 1%nat
  ∧ TaskManager.loop (TaskManager.start_task "t1" () Scenario.one_running)
      !! 0%nat =
    Some (TaskManager.mkTask () TaskManager.Pending true ["t1"]).
Proof.
  pose proof (start_task_cancels_then_replaces
                Scenario.one_running "t1" () 0%nat eq_refl)
    as (_ & _ & Htracked & _ & Hold).
  split; [exact Htracked|].
  exact (proj1 (proj2 (proj2 (Hold _ eq_refl eq_refl)))).
Defined.

(** C10. Start a task under [task_id], then start another under the same
    name while the first is still pending: the second start requests the
    cancellation of the first and stores the second under [task_id]. When
    the first task then reaches a done state and its done callback runs,
    [_task_completed] deletes the entry under [task_id], which refers to the
    second task: the second task is no longer tracked although it is still
    pending, and [cancel_task(task_id)] returns [False] and does nothing. *)
Theorem completion_of_replaced_task_drops_successor {Coro : Type}
    (m : TaskManager.manager Coro) (task_id : string) (w1 w2 : Coro)
    (s : TaskManager.task_state) :
  s ≠ TaskManager.Pending →
  let h1 := length (TaskManager.loop m) in
  let h2 := S h1 in
  let m2 := TaskManager.start_task task_id w2
              (TaskManager.start_task task_id w1 m) in
  ∃ m3 m4,
    TaskManager.loop m2 !! h1 =
      Some (TaskManager.mkTask w1 TaskManager.Pending true [task_id])
    ∧ TaskManager.tasks m2 !! task_id = Some h2
    ∧ TaskManager.finish h1 s m2 = Some m3
    ∧ TaskManager.tasks m3 !! task_id = Some h2
    ∧ TaskManager.run_callbacks h1 m3 = Some m4
    ∧ TaskManager.tasks m4 !! task_id = None
    ∧ TaskManager.loop m4 !! h2 =
        Some (TaskManager.mkTask w2 TaskManager.Pending false [task_id])
    ∧ TaskManager.cancel_task task_id m4 = (m4, false).
Proof.
  intros Hs h1 h2 m2.
  set (m1 := TaskManager.start_task task_id w1 m).
  set (T1 := TaskManager.mkTask w1 TaskManager.Pending false [task_id]).
  set (T2 := TaskManager.mkTask w2 TaskManager.Pending false [task_id]).
  (* the first start *)
  assert (∃ l tk lg, length l = h1 ∧
            m1 = TaskManager.mkManager (<[task_id := h1]> tk) (l ++ [T1]) lg)
    as (l & tk & lg & Hl & Hm1).
  { subst m1. rewrite start_task_unfold. simpl.
    set (m0 := if decide (is_Some (TaskManager.tasks m !! task_id))
               then (TaskManager.cancel_task task_id m).1 else m).
    assert (length (TaskManager.loop m0) = h1) as Hlen0.
    { subst m0. destruct (decide _); [apply cancel_task_length|done]. }
    exists (TaskManager.loop m0), (TaskManager.tasks m0),
      (TaskManager.log m0 ++ [TaskManager.LogStarted task_id]).
    split; [done|]. by rewrite Hlen0. }
  (* the second start cancels the first task and takes its place *)
  assert (m2 = TaskManager.mkManager (<[task_id := h2]> tk)
                 (l ++ [TaskManager.mkTask w1 TaskManager.Pending true
                          [task_id]] ++ [T2])
                 (lg ++ [TaskManager.LogCancelled task_id;
                         TaskManager.LogStarted task_id])) as Hm2.
  { subst m2. fold m1. rewrite start_task_unfold, Hm1. simpl.
    rewrite lookup_insert_eq. rewrite decide_True by done.
    unfold TaskManager.cancel_task. simpl.
    rewrite lookup_insert_eq, <- Hl, lookup_last. simpl.
    rewrite insert_last, length_app, insert_insert_eq, <- !app_assoc. simpl.
    subst h2 h1. f_equal. f_equal. lia. }
  clearbody m2. subst m2. clear Hm1 m1.
  set (m2 := TaskManager.mkManager _ _ _).
  assert (TaskManager.loop m2 !! h1 =
            Some (TaskManager.mkTask w1 TaskManager.Pending true [task_id]))
    as Hh1.
  { subst m2. simpl. rewrite <- Hl. by rewrite list_lookup_middle. }
  (* the first task is done, its callback runs *)
  set (m3 := TaskManager.mkManager (<[task_id := h2]> tk)
               (l ++ [TaskManager.mkTask w1 s true [task_id]] ++ [T2])
               (lg ++ [TaskManager.LogCancelled task_id;
                       TaskManager.LogStarted task_id])).
  assert (TaskManager.finish h1 s m2 = Some m3) as Hfin.
  { unfold TaskManager.finish. rewrite Hh1. simpl.
    destruct s; try done; subst m2 m3; simpl;
      by rewrite <- Hl, insert_app_r_alt, Nat.sub_diag by done. }
  assert (∃ r, TaskManager.run_callbacks h1 m3 =
            Some (TaskManager.mkManager (delete task_id (<[task_id := h2]> tk))
                    (l ++ [TaskManager.mkTask w1 s true []] ++ [T2])
                    (lg ++ [TaskManager.LogCancelled task_id;
                            TaskManager.LogStarted task_id] ++ [r])))
    as [r Hrun].
  { unfold TaskManager.run_callbacks. subst m3. simpl.
    rewrite <- Hl, list_lookup_middle by done.
    assert (TaskManager.done (TaskManager.mkTask w1 s true [task_id]) = true)
      as -> by (by destruct s).
    simpl. unfold TaskManager._task_completed. simpl.
    rewrite lookup_insert_eq, decide_True by done.
    rewrite insert_app_r_alt, Nat.sub_diag by done. simpl.
    rewrite list_lookup_middle by done. simpl.
    destruct s as [| |e|]; try done; simpl;
      [|unfold TaskManager.classify; simpl; destruct (Http.exn_bool e); simpl|];
      eexists; by rewrite <- app_assoc. }
  eexists m3, _. split_and!; try done.
  - subst m2. simpl. apply lookup_insert_eq.
  - subst m3. simpl. apply lookup_insert_eq.
  - simpl. apply lookup_delete_eq.
  - simpl. subst h2.
    replace (S h1) with (length (l ++ [TaskManager.mkTask w1 s true []]))
      by (rewrite length_app; simpl; lia).
    change (l ++ [?t; T2]) with (l ++ [t] ++ [T2]).
    rewrite (app_assoc l [_] [T2]). apply lookup_last.
  - unfold TaskManager.cancel_task. simpl. by rewrite lookup_delete_eq.
Qed.

Lemma completion_of_replaced_task_drops_successor_witness :
  ∃ m3 m4,
    TaskManager.finish 0 TaskManager.Cancelled
      (TaskManager.start_task "t1" () Scenario.one_running) = Some m3
    ∧ TaskManager.run_callbacks 0 m3 = Some m4
    ∧ TaskManager.tasks m4 !! "t1" = None
    ∧ TaskManager.loop m4 !! 1%nat =
        Some (TaskManager.mkTask () TaskManager.Pending false ["t1"])
    ∧ TaskManager.cancel_task "t1" m4 = (m4, false).
Proof.
  destruct (completion_of_replaced_task_drops_successor
              TaskManager.init "t1" () () TaskManager.Cancelled)
    as (m3 & m4 & _ & _ & Hfin & _ & Hrun & Hgone & Hlive & Hcancel);
    [discriminate|].
  exists m3, m4. split_and!; assumption.
Defined.

(* ===================================================================== *)
(** ** More on the HTTP client: recovery, bounds, edge cases              *)
(* ===================================================================== *)

Section http_client_more.

Import Http.

Variables (session : transport) (sleep : sleeper) (method url : string)
          (retries : Z).

Abbreviation loop_of attempts last :=
  (request_loop session sleep method url retries attempts last).

(** The events of [n] failed attempts from attempt [a] on, each followed by
    its backoff sleep. *)
Abbreviation failed_prefix a n :=
  (flat_map (λ k, [EvCall method url k; EvSleep (wait_time k)])
     (seqZ a (Z.of_nat n))).

Lemma seqZ_succ (a : Z) (n : nat) :
  seqZ a (Z.of_nat (S n)) = a :: seqZ (a + 1) (Z.of_nat n).
Proof. rewrite seqZ_cons by lia. f_equal. f_equal; lia. Qed.

(** [n] failures that leave attempts to spare, each followed by a sleep that
    returns, then an attempt that gets out of the [try] block with a
    response. *)
Lemma loop_recovers (n : nat) : ∀ a rest last r,
  (∀ k, a ≤ k < a + Z.of_nat n →
     ∃ e, Http.attempt_fails session method url k e) →
  (∀ k, a ≤ k < a + Z.of_nat n → sleep k = Returns ()) →
  a + Z.of_nat n ≤ retries →
  try_body (session method url (a + Z.of_nat n)) = Returns r →
  loop_of (seqZ a (Z.of_nat n) ++ (a + Z.of_nat n) :: rest) last =
    (Returns r, failed_prefix a n ++ [EvCall method url (a + Z.of_nat n)]).
Proof.
  induction n as [|n IH]; intros a rest last r Hfail Hsleep Hle Hok.
  - rewrite seqZ_nil by done. rewrite Z.add_0_r in *. simpl. by rewrite Hok.
  - rewrite seqZ_succ. simpl.
    destruct (Hfail a) as (e & Hb & He); [lia|]. rewrite Hb, He.
    assert ((a <? retries) = true) as -> by (apply Z.ltb_lt; lia).
    rewrite (Hsleep a) by lia.
    replace (a + Z.of_nat (S n)) with (a + 1 + Z.of_nat n) in * by lia.
    rewrite (IH (a + 1) rest (Some e) r); [done| | |lia|done].
    + intros k Hk. apply Hfail. lia.
    + intros k Hk. apply Hsleep. lia.
Qed.

Lemma calls_failed_prefix (n : nat) : ∀ a,
  calls (failed_prefix a n) = seqZ a (Z.of_nat n).
Proof.
  induction n as [|n IH]; intros a; [by rewrite seqZ_nil|].
  rewrite seqZ_succ. simpl. unfold calls in IH. by rewrite IH.
Qed.

Lemma calls_app (tr1 tr2 : list io_event) :
  calls (tr1 ++ tr2) = calls tr1 ++ calls tr2.
Proof. unfold calls. apply omap_app. Qed.

Lemma total_sleep_app (tr1 tr2 : list io_event) :
  total_sleep (tr1 ++ tr2) = total_sleep tr1 + total_sleep tr2.
Proof.
  induction tr1 as [|[m u k|d] tr1 IH]; simpl; [done| |]; rewrite IH; lia.
Qed.

Lemma total_sleep_failed_prefix (n : nat) : ∀ a, 0 ≤ a →
  total_sleep (failed_prefix a n) = 2 ^ (a + Z.of_nat n) - 2 ^ a.
Proof.
  induction n as [|n IH]; intros a Ha.
  - rewrite seqZ_nil by done. rewrite Z.add_0_r. simpl. lia.
  - rewrite seqZ_succ. simpl. rewrite IH by lia. unfold wait_time.
    replace (a + Z.of_nat (S n)) with (a + 1 + Z.of_nat n) by lia.
    rewrite (Z.pow_add_r 2 a 1) by lia. lia.
Qed.

(** What any run of the loop over the attempts [a .. retries] costs, also a
    run that a fault or an interrupted sleep cuts short. *)
Lemma loop_effort (n : nat) : ∀ a last,
  0 ≤ a → a + Z.of_nat n = retries + 1 →
  ∃ m : nat,
    (m ≤ n)%nat ∧ (n ≠ O → m ≠ O)
    ∧ calls (loop_of (seqZ a (Z.of_nat n)) last).2 = seqZ a (Z.of_nat m)
    ∧ 0 ≤ total_sleep (loop_of (seqZ a (Z.of_nat n)) last).2
    ∧ (n ≠ O →
       total_sleep (loop_of (seqZ a (Z.of_nat n)) last).2
         ≤ 2 ^ retries - 2 ^ a).
Proof.
  induction n as [|n IH]; intros a last Ha Hlen.
  - exists O. rewrite seqZ_nil by done. simpl. by split_and!.
  - assert (2 ^ a ≤ 2 ^ retries) as Hpow
      by (apply Z.pow_le_mono_r; lia).
    assert (0 < 2 ^ a) as Hpos2 by (apply Z.pow_pos_nonneg; lia).
    rewrite seqZ_succ. simpl.
    destruct (try_body (session method url a)) as [r|e].
    { exists 1%nat. simpl.
      split_and!; try done; try lia; by rewrite seqZ_succ, seqZ_nil. }
    destruct (is_exception e).
    2:{ exists 1%nat. simpl.
        split_and!; try done; try lia; by rewrite seqZ_succ, seqZ_nil. }
    destruct (IH (a + 1) (Some e)) as (m & Hm & Hm0 & Hcalls & Hpos & Hsum);
      [lia|lia|].
    destruct (a <? retries) eqn:Hlt.
    + apply Z.ltb_lt in Hlt.
      assert (2 ^ (a + 1) ≤ 2 ^ retries) as Hpow1
        by (apply Z.pow_le_mono_r; lia).
      rewrite (Z.pow_add_r 2 a 1) in Hpow1 by lia.
      destruct (sleep a) as [[]|e'].
      * exists (S m). rewrite seqZ_succ. simpl. rewrite Hcalls.
        split_and!; try done; try lia.
        -- unfold wait_time. lia.
        -- intros _. unfold wait_time.
           assert (n ≠ O) as Hn by lia. specialize (Hsum Hn).
           rewrite (Z.pow_add_r 2 a 1) in Hsum by lia. lia.
      * exists 1%nat. simpl. unfold wait_time.
        split_and!; try done; try lia; by rewrite seqZ_succ, seqZ_nil.
    + exists (S m). rewrite seqZ_succ. simpl. rewrite Hcalls.
      apply Z.ltb_ge in Hlt. assert (n = O) as -> by lia.
      rewrite seqZ_nil in * by done. simpl in *.
      split_and!; try done; lia.
Qed.

(** A response that leaves the loop: either it was built in the [try] block
    of some attempt from a response of status below 400, with no error, and
    it lacks data only when that response was JSON whose document is
    [None]; or it carries an error and no data. *)
Lemma loop_response_shape (attempts : list Z) : ∀ last r tr,
  loop_of attempts last = (Returns r, tr) →
  (status r < 400 ∧ error r = None
   ∧ ∃ k resp, k ∈ attempts
       ∧ session method url k = Returns resp
       ∧ resp_status resp = status r
       ∧ (data r = None →
          content_type resp = "application/json"
          ∧ json resp = Returns None))
  ∨ (data r = None ∧ is_Some (error r)).
Proof.
  induction attempts as [|a rest IH]; intros last r tr Hrun; simpl in Hrun.
  - simplify_eq. right. simpl. eauto.
  - destruct (try_body (session method url a)) as [r'|e] eqn:Hb.
    + simplify_eq. unfold try_body in Hb.
      destruct (session method url a) as [resp|] eqn:Hcall; simplify_eq/=.
      destruct (resp_status resp <? 400) eqn:Hlt.
      * apply Z.ltb_lt in Hlt. left.
        destruct (String.eqb _ _) eqn:Hct.
        -- apply String.eqb_eq in Hct.
           destruct (json resp) as [[doc|]|] eqn:Hj; simplify_eq/=;
             (split_and!; [done..|]); exists a, resp;
             split_and!; try done; apply list_elem_of_here.
        -- destruct (text resp); simplify_eq/=.
           split_and!; [done..|]. exists a, resp.
           split_and!; try done; apply list_elem_of_here.
      * right. destruct (text resp); simplify_eq/=; eauto.
    + destruct (is_exception e); [|by simplify_eq].
      assert (∀ o tr', loop_of rest (Some e) = (Returns o, tr') →
                (status o < 400 ∧ error o = None
                 ∧ ∃ k resp, k ∈ a :: rest
                     ∧ session method url k = Returns resp
                     ∧ resp_status resp = status o
                     ∧ (data o = None →
                        content_type resp = "application/json"
                        ∧ json resp = Returns None))
                ∨ (data o = None ∧ is_Some (error o))) as Hrest.
      { intros o tr' Ho. destruct (IH _ _ _ Ho)
          as [(? & ? & k & resp & ? & ? & ? & ?)|?]; [left|by right].
        split_and!; [done..|]. exists k, resp.
        split_and!; try done. by apply list_elem_of_further. }
      destruct (a <? retries); [destruct (sleep a); [|by simplify_eq]|];
        unfold emit in Hrun; simpl in Hrun;
        destruct (loop_of rest (Some e)) as [o tr'] eqn:Hloop;
        simplify_eq/=; by eapply Hrest.
Qed.

(** Every transport call of the loop goes to [method] and [url]. *)
Lemma loop_calls_target (attempts : list Z) : ∀ last,
  Forall (λ ev, match ev with
                | EvCall m u _ => m = method ∧ u = url
                | EvSleep _ => True
                end) (loop_of attempts last).2.
Proof.
  induction attempts as [|a rest IH]; intros last; simpl; [done|].
  destruct (try_body (session method url a)) as [r|e]; simpl.
  { by repeat constructor. }
  destruct (is_exception e); simpl; [|by repeat constructor].
  destruct (a <? retries); [destruct (sleep a)|]; simpl;
    repeat constructor; apply IH.
Qed.

(** The trace of a loop all of whose attempts fail and none of whose sleeps
    is interrupted: every attempt but the last is followed by its sleep. *)
Lemma loop_exhausts (n : nat) : ∀ a last,
  (∀ k, a ≤ k ≤ a + Z.of_nat n →
     ∃ e, Http.attempt_fails session method url k e) →
  (∀ k, a ≤ k < a + Z.of_nat n → sleep k = Returns ()) →
  a + Z.of_nat n = retries →
  (loop_of (seqZ a (Z.of_nat (S n))) last).2 =
    failed_prefix a n ++ [EvCall method url (a + Z.of_nat n)].
Proof.
  induction n as [|n IH]; intros a last Hfail Hsleep Hlen.
  - rewrite seqZ_succ, (seqZ_nil _ (Z.of_nat 0)) by done.
    rewrite Z.add_0_r in *. simpl.
    destruct (Hfail a) as (e & Hb & He); [lia|]. rewrite Hb, He.
    by assert ((a <? retries) = false) as -> by (apply Z.ltb_ge; lia).
  - rewrite seqZ_succ. simpl.
    destruct (Hfail a) as (e & Hb & He); [lia|]. rewrite Hb, He.
    assert ((a <? retries) = true) as -> by (apply Z.ltb_lt; lia).
    rewrite (Hsleep a) by lia.
    simpl. rewrite (IH (a + 1) (Some e));
      [|intros k Hk; apply Hfail; lia|intros k Hk; apply Hsleep; lia|lia].
    rewrite (seqZ_succ a n). simpl.
    by replace (a + 1 + Z.of_nat n) with (a + Z.of_nat (S n)) by lia.
Qed.


End http_client_more.

(** X1. Recovery: when the first [k] attempts fail, [k] being within the
    retry budget, none of the backoff sleeps that follow them is
    interrupted, and attempt [k] gets a response out of the [try] block,
    [_request] returns that response after exactly [k + 1] calls, numbered
    from 0, having slept [2 ^ k - 1] seconds in all; the last thing it does
    is the successful call. *)
Theorem request_recovers
    (session : Http.transport) (sleep : Http.sleeper) (method url : string)
    (retries k : Z) (r : Http.APIResponse) :
  0 ≤ k ≤ retries →
  (∀ j, 0 ≤ j < k → ∃ e, Http.attempt_fails session method url j e) →
  (∀ j, 0 ≤ j < k → sleep j = Http.Returns ()) →
  Http.try_body (session method url k) = Http.Returns r →
  ∃ tr,
    Http._request session sleep method url retries = (Http.Returns r, tr)
    ∧ Http.calls tr = Http.range (k + 1)
    ∧ Http.total_sleep tr = 2 ^ k - 1
    ∧ last tr = Some (Http.EvCall method url k).
Proof.
  intros Hk Hfail Hsleep Hok. unfold Http._request, Http.range.
  replace (retries + 1) with (k + (1 + (retries - k))) by lia.
  rewrite seqZ_app by lia. rewrite Z.add_0_l.
  rewrite (seqZ_cons k) by lia.
  pose proof (loop_recovers session sleep method url retries (Z.to_nat k) 0
                (seqZ (Z.succ k) (Z.pred (1 + (retries - k)))) None r)
    as Hrun.
  rewrite !Z2Nat.id, !Z.add_0_l in Hrun by lia.
  rewrite Hrun;
    [|intros j Hj; apply Hfail; lia|intros j Hj; apply Hsleep; lia|lia|done].
  eexists. split; [done|]. split_and!.
  - rewrite calls_app, <- (Z2Nat.id k) at 1 by lia.
    rewrite calls_failed_prefix, Z2Nat.id by lia. simpl.
    rewrite seqZ_app by lia. rewrite Z.add_0_l.
    by rewrite (seqZ_cons k), (seqZ_nil (Z.succ k)) by lia.
  - rewrite total_sleep_app, <- (Z2Nat.id k) at 1 by lia.
    rewrite total_sleep_failed_prefix by lia.
    rewrite Z2Nat.id, Z.add_0_l, Z.pow_0_r by lia.
    unfold Http.total_sleep. simpl. lia.
  - by rewrite last_snoc.
Qed.

Lemma request_recovers_witness :
  ∃ tr,
    Http._request Scenario.flaky Http.uninterrupted "GET" "http://h/x" 3 =
      (Http.Returns
         (Http.mkAPIResponse 200 (Some (Http.JsonData "{}")) None), tr)
    ∧ Http.calls tr = Http.range (2 + 1)
    ∧ Http.total_sleep tr = 2 ^ 2 - 1
    ∧ last tr = Some (Http.EvCall "GET" "http://h/x" 2).
Proof.
  apply (request_recovers Scenario.flaky Http.uninterrupted
           "GET" "http://h/x" 3 2).
  - lia.
  - intros j Hj. exists Scenario.timeout_error.
    assert (j = 0 ∨ j = 1) as [-> | ->] by lia; split; reflexivity.
  - reflexivity.
  - reflexivity.
Defined.

(** X2. With a negative retry budget [range(retries + 1)] is empty:
    [_request] makes no transport call at all and returns the status-0
    response whose error is [str(None)], the text "None". *)
Theorem request_negative_budget
    (session : Http.transport) (sleep : Http.sleeper) (method url : string)
    (retries : Z) :
  retries < 0 →
  Http._request session sleep method url retries =
    (Http.Returns (Http.mkAPIResponse 0 None (Some "None")), []).
Proof.
  intros Hr. unfold Http._request, Http.range. by rewrite seqZ_nil by lia.
Qed.

Lemma request_negative_budget_witness :
  Http._request Scenario.always_200 Scenario.cancelled_sleep
    "GET" "http://h/x" (-1) =
    (Http.Returns (Http.mkAPIResponse 0 None (Some "None")), []).
Proof.
  apply (request_negative_budget Scenario.always_200 Scenario.cancelled_sleep
           "GET" "http://h/x" (-1)).
  lia.
Defined.

(** X3. Whatever the transport does, and whether or not a backoff sleep is
    interrupted, [_request] with budget [retries >= 0] makes at least one
    and at most [retries + 1] transport calls, numbered consecutively from
    0, and sleeps at most [2 ^ retries - 1] seconds in all (7 for the
    default budget). *)
Theorem request_effort_bounded
    (session : Http.transport) (sleep : Http.sleeper) (method url : string)
    (retries : Z) :
  0 ≤ retries →
  ∃ n,
    1 ≤ n ≤ retries + 1
    ∧ Http.calls (Http._request session sleep method url retries).2 =
        Http.range n
    ∧ 0 ≤ Http.total_sleep (Http._request session sleep method url retries).2
        ≤ 2 ^ retries - 1.
Proof.
  intros Hr. unfold Http._request, Http.range.
  rewrite <- (Z2Nat.id (retries + 1)) by lia.
  destruct (loop_effort session sleep method url retries
              (Z.to_nat (retries + 1)) 0 None)
    as (m & Hm & Hm0 & Hcalls & Hpos & Hsum); [lia|lia|].
  rewrite Z.pow_0_r in Hsum.
  exists (Z.of_nat m). split_and!; try done; lia.
Qed.

Lemma request_effort_bounded_witness :
  ∃ n,
    1 ≤ n ≤ 3 + 1
    ∧ Http.calls (Http._request Scenario.flaky Http.uninterrupted
                    "GET" "http://h/x" 3).2 = Http.range n
    ∧ 0 ≤ Http.total_sleep (Http._request Scenario.flaky Http.uninterrupted
                              "GET" "http://h/x" 3).2
        ≤ 2 ^ 3 - 1.
Proof.
  apply (request_effort_bounded Scenario.flaky Http.uninterrupted
           "GET" "http://h/x" 3). lia.
Defined.

(** X4. A response returned by [_request] never has both [data] and
    [error] set, and it has [data] only with a status below 400.  It can
    have neither: [response.json()] yields [None] for a JSON document that
    is [null], so a response of status below 400 and content type
    application/json whose document is [None] comes back with [data] and
    [error] both [None]; that is the only way for a returned response to
    carry neither. *)
Theorem response_data_xor_error
    (session : Http.transport) (sleep : Http.sleeper) (method url : string)
    (retries : Z) (r : Http.APIResponse) :
  (Http._request session sleep method url retries).1 = Http.Returns r →
  ¬ (is_Some (Http.data r) ∧ is_Some (Http.error r))
  ∧ (is_Some (Http.data r) → Http.status r < 400)
  ∧ (Http.data r = None → Http.error r = None →
     Http.status r < 400
     ∧ ∃ k resp,
         0 ≤ k ≤ retries
         ∧ session method url k = Http.Returns resp
         ∧ Http.resp_status resp = Http.status r
         ∧ Http.content_type resp = "application/json"
         ∧ Http.json resp = Http.Returns None).
Proof.
  intros Hrun. unfold Http._request in Hrun.
  destruct (Http.request_loop _ _ _ _ _ _ _) as [o tr] eqn:Hloop.
  simpl in Hrun. subst o.
  destruct (loop_response_shape _ _ _ _ _ _ _ _ _ Hloop)
    as [(Hst & He & k & resp & Hin & Hcall & Hrs & Hnull)|[Hd He]].
  - split_and!; [rewrite He; by intros [_ [? ?]]|done|].
    intros Hd _. split; [done|]. destruct (Hnull Hd) as [Hct Hj].
    exists k, resp. split_and!; try done;
      unfold Http.range in Hin; apply elem_of_seqZ in Hin; lia.
  - split_and!.
    + rewrite Hd. by intros [[? ?] _].
    + rewrite Hd. by intros [? ?].
    + intros _ Hnone. rewrite Hnone in He. by destruct He.
Qed.

Lemma response_data_xor_error_witness :
  ¬ (is_Some (@None Http.payload) ∧ is_Some (@None string))
  ∧ (is_Some (@None Http.payload) → 200 < 400)
  ∧ (@None Http.payload = None → @None string = None →
     200 < 400
     ∧ ∃ k resp,
         0 ≤ k ≤ 3
         ∧ Scenario.always_null "GET" "http://h/x" k = Http.Returns resp
         ∧ Http.resp_status resp = 200
         ∧ Http.content_type resp = "application/json"
         ∧ Http.json resp = Http.Returns None).
Proof.
  apply (response_data_xor_error Scenario.always_null Http.uninterrupted
           "GET" "http://h/x" 3 (Http.mkAPIResponse 200 None None)).
  reflexivity.
Defined.

(** X5. An error response whose body cannot be read is no rejection: the
    read happens inside the [try] block, so the attempt counts as failed
    and is retried; when that happens on every attempt and no backoff sleep
    is interrupted the caller gets status 0 with the text of the last read
    error, and the HTTP status of the response is lost. *)
Theorem unreadable_error_body_is_retried
    (session : Http.transport) (sleep : Http.sleeper) (method url : string)
    (retries : Z) :
  0 ≤ retries →
  (∀ k, 0 ≤ k ≤ retries →
     ∃ resp e, session method url k = Http.Returns resp
               ∧ 400 ≤ Http.resp_status resp
               ∧ Http.text resp = Http.Raises e
               ∧ Http.is_exception e = true) →
  (∀ k, 0 ≤ k < retries → sleep k = Http.Returns ()) →
  ∃ tr resp e,
    Http._request session sleep method url retries =
      (Http.Returns (Http.mkAPIResponse 0 None (Some (Http.exn_str e))), tr)
    ∧ session method url retries = Http.Returns resp
    ∧ Http.text resp = Http.Raises e
    ∧ Http.calls tr = Http.range (retries + 1).
Proof.
  intros Hr Hall Hsleep.
  assert (∀ k resp e, session method url k = Http.Returns resp →
            400 ≤ Http.resp_status resp → Http.text resp = Http.Raises e →
            Http.try_body (session method url k) = Http.Raises e) as Hbody.
  { intros k resp e Hc Hst Ht. unfold Http.try_body. rewrite Hc. simpl.
    assert ((Http.resp_status resp <? 400) = false) as ->
      by (apply Z.ltb_ge; lia).
    by rewrite Ht. }
  unfold Http._request, Http.range.
  destruct (loop_all_fail session sleep method url retries
              (Z.to_nat (retries + 1)) 0 None)
    as (tr & last' & Hrun & Hcalls & Hlast).
  { intros k Hk. destruct (Hall k) as (resp & e & Hc & Hst & Ht & He); [lia|].
    exists e. split; [by eapply Hbody|done]. }
  { intros k Hk. apply Hsleep. lia. }
  rewrite Z2Nat.id in Hrun, Hcalls by lia.
  destruct (Z.to_nat (retries + 1)) as [|n'] eqn:Hn; [lia|].
  destruct Hlast as (e & -> & Hb & _).
  replace (0 + Z.of_nat n') with retries in Hb by lia.
  destruct (Hall retries) as (resp & e' & Hc & Hst & Ht & _); [lia|].
  rewrite (Hbody _ _ _ Hc Hst Ht) in Hb. injection Hb as <-.
  exists tr, resp, e'. by rewrite Hrun, Hcalls.
Qed.

Lemma unreadable_error_body_is_retried_witness :
  ∃ tr resp e,
    Http._request Scenario.broken_body Http.uninterrupted
      "GET" "http://h/x" 3 =
      (Http.Returns (Http.mkAPIResponse 0 None (Some (Http.exn_str e))), tr)
    ∧ Scenario.broken_body "GET" "http://h/x" 3 = Http.Returns resp
    ∧ Http.text resp = Http.Raises e
    ∧ Http.calls tr = Http.range (3 + 1).
Proof.
  apply (unreadable_error_body_is_retried
           Scenario.broken_body Http.uninterrupted "GET" "http://h/x" 3);
    [lia| |done].
  intros k _. eexists _, _. split; [reflexivity|].
  split; [simpl; lia|]. split; reflexivity.
Defined.

(** X6. [get] only ever calls the transport with method GET and [post] with
    method POST, each on the url it was given: no attempt goes elsewhere. *)
Theorem get_post_call_their_target
    (session : Http.transport) (body_session : option string → Http.transport)
    (sleep : Http.sleeper) (url : string) (json_data : option string)
    (retries : Z) :
  Forall (λ ev, match ev with
                | Http.EvCall m u _ => m = "GET" ∧ u = url
                | Http.EvSleep _ => True
                end) (Http.get session sleep url retries).2
  ∧ Forall (λ ev, match ev with
                  | Http.EvCall m u _ => m = "POST" ∧ u = url
                  | Http.EvSleep _ => True
                  end) (Http.post body_session sleep url json_data retries).2.
Proof. split; apply loop_calls_target. Qed.

(* ===================================================================== *)
(** ** More on the dispatcher and on [main]'s use of it                   *)
(* ===================================================================== *)

Section dispatcher_more.

Import Http.





End dispatcher_more.







(* ===================================================================== *)
(** ** More on the semaphore: progress, no leak, one pass per unit        *)
(* ===================================================================== *)

Section limiter_more.

Import Limiter.
Local Open Scope nat_scope.

Abbreviation tally_of f l := (length (filter (λ p : phase, f p = true) l)).

Lemma tally_pos (f : phase → bool) (l : list phase) :
  0 < tally_of f l → ∃ (i : nat) p, l !! i = Some p ∧ f p = true.
Proof.
  induction l as [|x l IH]; simpl; [lia|].
  rewrite filter_cons. destruct (decide (f x = true)) as [Hx|Hx].
  - intros _. by exists 0, x.
  - intros Hpos. destruct (IH Hpos) as (i & p & Hi & Hp). by exists (S i), p.
Qed.

Lemma tally_none (f : phase → bool) (l : list phase) :
  Forall (λ p, f p = false) l → tally_of f l = 0.
Proof.
  induction 1 as [|x l Hx _ IH]; [done|].
  rewrite filter_cons, Hx. by destruct (decide (false = true)).
Qed.

(** What one move does to the phase of each unit. *)
Lemma step_phases (l : label) (b b' : batch) :
  step l b = Some b' →
  length (units b') = length (units b)
  ∧ ∀ (i : nat) p, units b !! i = Some p →
      ∃ p', units b' !! i = Some p'
            ∧ (p = Finished → p' = Finished)
            ∧ (p ≠ Waiting → p' ≠ Waiting).
Proof.
  intros Hstep.
  assert (∃ (j : nat) q q', units b !! j = Some q
            ∧ units b' = <[j := q']> (units b)
            ∧ q ≠ Finished ∧ q' ≠ Waiting) as (j & q & q' & Hj & -> & Hq & Hq').
  { destruct l as [j|j|j|j]; simpl in Hstep;
      destruct (units b !! j) as [q|] eqn:Hq; try done.
    - destruct q; try done. destruct (value b); simplify_eq/=.
      by exists j, Waiting, Calling.
    - destruct q; simplify_eq/=. by exists j, Calling, Sleeping.
    - destruct q; simplify_eq/=. by exists j, Sleeping, Calling.
    - destruct (holds_permit q) eqn:Hh; simplify_eq/=.
      exists j, q, Finished. split_and!; try done. by intros ->. }
  split; [by rewrite length_insert|].
  intros i p Hi. destruct (decide (i = j)) as [->|Hne].
  - exists q'. rewrite list_lookup_insert_eq by (by eapply lookup_lt_Some).
    rewrite Hj in Hi. simplify_eq. by split_and!.
  - exists p. by rewrite list_lookup_insert_ne.
Qed.

Lemma run_phases (ls : list label) : ∀ b b',
  run ls b = Some b' →
  length (units b') = length (units b)
  ∧ ∀ (i : nat) p, units b !! i = Some p →
      ∃ p', units b' !! i = Some p'
            ∧ (p = Finished → p' = Finished)
            ∧ (p ≠ Waiting → p' ≠ Waiting).
Proof.
  induction ls as [|l ls IH]; intros b b' Hrun; simplify_eq/=.
  - split; [done|]. intros i p Hi. by exists p.
  - destruct (step l b) as [b1|] eqn:Hstep; [|done].
    destruct (step_phases _ _ _ Hstep) as [Hlen1 Hph1].
    destruct (IH _ _ Hrun) as [Hlen Hph].
    split; [congruence|].
    intros i p Hi. destruct (Hph1 i p Hi) as (p1 & Hi1 & Hf1 & Hw1).
    destruct (Hph i p1 Hi1) as (p' & Hi' & Hf & Hw).
    exists p'. split_and!; auto.
Qed.

End limiter_more.

(** X10. A batch under a semaphore of capacity at least 1 never deadlocks:
    in every state it can reach, as long as some unit has not finished, some
    unit can move (a waiting unit gets a permit, or a unit that holds one
    goes on or releases it). *)
Theorem limiter_never_deadlocks (K n : nat) (ls : list Limiter.label)
    (b : Limiter.batch) (i : nat) (p : Limiter.phase) :
  (0 < K)%nat →
  Limiter.run ls (Limiter.start K n) = Some b →
  Limiter.units b !! i = Some p → p ≠ Limiter.Finished →
  ∃ l b', Limiter.step l b = Some b'.
Proof.
  intros HK Hrun Hi Hp.
  assert (Limiter.value b + Limiter.count Limiter.holds_permit b = K)%nat
    as Hinv.
  { rewrite (run_permits _ _ _ Hrun). unfold Limiter.count, Limiter.start.
    simpl. rewrite tally_replicate_waiting by done. lia. }
  assert (∀ (j : nat) q, Limiter.units b !! j = Some q →
            Limiter.holds_permit q = true →
            ∃ l b', Limiter.step l b = Some b') as Hrel.
  { intros j q Hj Hq. exists (Limiter.Release j). simpl. rewrite Hj, Hq.
    by eexists. }
  destruct p; try done.
  - destruct (Limiter.value b) as [|v] eqn:Hv.
    + destruct (tally_pos Limiter.holds_permit (Limiter.units b))
        as (j & q & Hj & Hq); [unfold Limiter.count in Hinv; lia|].
      by eapply Hrel.
    + exists (Limiter.Acquire i). simpl. rewrite Hi, Hv. by eexists.
  - by eapply Hrel.
  - by eapply Hrel.
Qed.

Lemma limiter_never_deadlocks_witness :
  ∃ l b',
    Limiter.step l
      (Limiter.mkBatch 0
         [Limiter.Calling; Limiter.Sleeping; Limiter.Waiting]) = Some b'.
Proof.
  apply (limiter_never_deadlocks 2 3
           [Limiter.Acquire 0; Limiter.Acquire 1; Limiter.Backoff 1]
           _ 2 Limiter.Waiting); [lia|reflexivity|reflexivity|discriminate].
Defined.

(** X11. No permit is lost: when every unit of the batch has finished, the
    semaphore is back at its full capacity, whatever the units did (returned,
    retried, raised) on the way. *)
Theorem limiter_permits_all_returned (K n : nat) (ls : list Limiter.label)
    (b : Limiter.batch) :
  Limiter.run ls (Limiter.start K n) = Some b →
  Forall (λ p, p = Limiter.Finished) (Limiter.units b) →
  Limiter.value b = K ∧ length (Limiter.units b) = n.
Proof.
  intros Hrun Hdone. split.
  - assert (Limiter.value b + Limiter.count Limiter.holds_permit b = K)%nat
      as Hinv.
    { rewrite (run_permits _ _ _ Hrun). unfold Limiter.count, Limiter.start.
      simpl. rewrite tally_replicate_waiting by done. lia. }
    unfold Limiter.count in Hinv. rewrite tally_none in Hinv; [lia|].
    eapply Forall_impl; [done|]. by intros ? ->.
  - destruct (run_phases _ _ _ Hrun) as [-> _]. simpl.
    apply length_replicate.
Qed.

Lemma limiter_permits_all_returned_witness :
  Limiter.value (Limiter.mkBatch 1 [Limiter.Finished; Limiter.Finished]) =
    1%nat
  ∧ length
      (Limiter.units (Limiter.mkBatch 1 [Limiter.Finished; Limiter.Finished]))
    = 2%nat.
Proof.
  apply (limiter_permits_all_returned 1 2
           [Limiter.Acquire 1; Limiter.Backoff 1; Limiter.Release 1;
            Limiter.Acquire 0; Limiter.Release 0]); [reflexivity|].
  repeat constructor.
Defined.

(** X12. Each unit passes the semaphore once: along any run the batch keeps
    its units, a unit that has finished stays finished, and a unit that has
    left the waiting phase never waits for a permit again. *)
Theorem limiter_units_move_forward (ls : list Limiter.label)
    (b b' : Limiter.batch) :
  Limiter.run ls b = Some b' →
  length (Limiter.units b') = length (Limiter.units b)
  ∧ ∀ (i : nat) p, Limiter.units b !! i = Some p →
      ∃ p', Limiter.units b' !! i = Some p'
            ∧ (p = Limiter.Finished → p' = Limiter.Finished)
            ∧ (p ≠ Limiter.Waiting → p' ≠ Limiter.Waiting).
Proof. apply run_phases. Qed.

Lemma limiter_units_move_forward_witness :
  ∃ p', [Limiter.Finished; Limiter.Calling] !! 0%nat = Some p'
        ∧ (Limiter.Calling = Limiter.Finished → p' = Limiter.Finished)
        ∧ (Limiter.Calling ≠ Limiter.Waiting → p' ≠ Limiter.Waiting).
Proof.
  apply (proj2 (limiter_units_move_forward
                  [Limiter.Release 0; Limiter.Acquire 1]
                  (Limiter.mkBatch 0 [Limiter.Calling; Limiter.Waiting])
                  _ eq_refl) 0%nat Limiter.Calling).
  reflexivity.
Defined.

(* ===================================================================== *)
(** ** More on the task manager: cancel_all, life cycle, invariants       *)
(* ===================================================================== *)

Section task_manager_more.

Import TaskManager.
Local Open Scope nat_scope.

Context {Coro : Type}.
Implicit Types (m : manager Coro) (t : task Coro) (task_id : string).

(** What [cancel_task] does to each task object of the loop. *)
Lemma cancel_task_lookup task_id m (h : nat) t :
  loop m !! h = Some t →
  ∃ t', loop (cancel_task task_id m).1 !! h = Some t'
        ∧ coro t' = coro t ∧ state t' = state t
        ∧ callbacks t' = callbacks t
        ∧ (must_cancel t' = true ↔
           must_cancel t = true
           ∨ (done t = false ∧ tasks m !! task_id = Some h)).
Proof.
  intros Ht. unfold cancel_task.
  destruct (tasks m !! task_id) as [h0|] eqn:Hid; simpl.
  2:{ exists t. split_and!; try done. split; [by left|]. by intros [?|[_ ?]]. }
  destruct (loop m !! h0) as [t0|] eqn:Ht0; simpl.
  2:{ exists t. split_and!; try done. split; [by left|].
      intros [?|[_ ?]]; [done|]. simplify_eq. }
  destruct (done t0) eqn:Hd; simpl.
  { exists t. split_and!; try done. split; [by left|].
    intros [?|[? ?]]; [done|]. simplify_eq. congruence. }
  destruct (decide (h = h0)) as [->|Hne].
  - rewrite list_lookup_insert_eq by (by eapply lookup_lt_Some).
    simplify_eq. unfold cancel. rewrite Hd. simpl.
    eexists. split_and!; try done. split; [|done]. intros _. by right.
  - rewrite list_lookup_insert_ne by done.
    exists t. split_and!; try done. split; [by left|].
    intros [?|[_ ?]]; [done|]. simplify_eq.
Qed.

Lemma cancel_all_over_tasks (keys : list string) : ∀ m,
  tasks (cancel_all_over keys m) = tasks m.
Proof.
  induction keys as [|k keys IH]; intros m; [done|].
  unfold cancel_all_over in *. simpl. by rewrite IH, cancel_task_tasks.
Qed.

(** What [cancel_all] does to each task object of the loop. *)
Lemma cancel_all_over_lookup (keys : list string) : ∀ m (h : nat) t,
  loop m !! h = Some t →
  ∃ t', loop (cancel_all_over keys m) !! h = Some t'
        ∧ coro t' = coro t ∧ state t' = state t
        ∧ callbacks t' = callbacks t
        ∧ (must_cancel t' = true ↔
           must_cancel t = true
           ∨ (done t = false
              ∧ ∃ task_id, task_id ∈ keys ∧ tasks m !! task_id = Some h)).
Proof.
  induction keys as [|k keys IH]; intros m h t Ht.
  - exists t. split_and!; try done. split; [by left|].
    intros [?|[_ (? & ?%elem_of_nil & _)]]; done.
  - destruct (cancel_task_lookup k m h t Ht)
      as (t1 & Ht1 & Hc1 & Hs1 & Hcb1 & Hm1).
    destruct (IH _ h t1 Ht1) as (t' & Ht' & Hc & Hs & Hcb & Hm).
    exists t'. unfold cancel_all_over in *. simpl.
    split_and!; try congruence.
    rewrite Hm, Hm1, cancel_task_tasks.
    assert (done t1 = done t) as -> by (unfold done; by rewrite Hs1).
    split.
    + intros [[?|[? ?]]|[? (id & Hin & Hid)]]; [by left|right..].
      * split; [done|]. exists k. split; [apply list_elem_of_here|done].
      * split; [done|]. exists id.
        split; [by apply list_elem_of_further|done].
    + intros [?|[? (id & [->|Hin]%elem_of_cons & Hid)]].
      * by left; left.
      * left; right. done.
      * right. split; [done|]. by exists id.
Qed.

Lemma task_completed_fields task_id (h : nat) m :
  tasks (_task_completed task_id h m) = delete task_id (tasks m)
  ∧ loop (_task_completed task_id h m) = loop m.
Proof.
  unfold _task_completed.
  assert ((if decide (is_Some (tasks m !! task_id))
           then delete task_id (tasks m) else tasks m)
          = delete task_id (tasks m)) as ->.
  { destruct (decide _) as [|Hn]; [done|].
    symmetry. apply delete_id. by apply eq_None_not_Some. }
  by destruct (loop m !! h ≫= classify task_id).
Qed.

Lemma callbacks_fold (ids : list string) (h : nat) : ∀ m,
  loop (foldl (λ acc task_id, _task_completed task_id h acc) m ids) = loop m
  ∧ ∀ task_id,
      tasks (foldl (λ acc task_id, _task_completed task_id h acc) m ids)
        !! task_id =
      if decide (task_id ∈ ids) then None else tasks m !! task_id.
Proof.
  induction ids as [|k ids IH]; intros m; simpl.
  - split; [done|]. intros id. by destruct (decide (id ∈ [])) as [?%elem_of_nil|].
  - destruct (IH (_task_completed k h m)) as [Hl Ht].
    destruct (task_completed_fields k h m) as [Hk Hkl].
    split; [congruence|]. intros id. rewrite Ht, Hk.
    destruct (decide (id ∈ ids)) as [Hin|Hnin].
    + destruct (decide (id ∈ k :: ids)) as [|Hn]; [done|].
      destruct Hn. by apply list_elem_of_further.
    + destruct (decide (id = k)) as [->|Hne].
      * rewrite lookup_delete_eq.
        destruct (decide (k ∈ k :: ids)) as [|Hn]; [done|].
        destruct Hn. apply list_elem_of_here.
      * rewrite lookup_delete_ne by done.
        by destruct (decide (id ∈ k :: ids)) as [[?|?]%elem_of_cons|].
Qed.

(** What the run of the done callbacks of task [h] leaves. *)
Lemma run_callbacks_spec (h : nat) m m' :
  run_callbacks h m = Some m' →
  ∃ t, loop m !! h = Some t ∧ done t = true
       ∧ loop m' = <[h := mkTask (coro t) (state t) (must_cancel t) []]>
                     (loop m)
       ∧ ∀ task_id, tasks m' !! task_id =
           if decide (task_id ∈ callbacks t) then None
           else tasks m !! task_id.
Proof.
  unfold run_callbacks. intros Hrun.
  destruct (loop m !! h) as [t|] eqn:Ht; [|done].
  destruct (done t) eqn:Hd; [|done]. simplify_eq.
  exists t. split_and!; try done.
  - by destruct (callbacks_fold (callbacks t) h
        (mkManager (tasks m)
           (<[h := mkTask (coro t) (state t) (must_cancel t) []]> (loop m))
           (log m))) as [-> _].
  - intros id.
    by destruct (callbacks_fold (callbacks t) h
        (mkManager (tasks m)
           (<[h := mkTask (coro t) (state t) (must_cancel t) []]> (loop m))
           (log m))) as [_ ->].
Qed.

End task_manager_more.

Section task_manager_invariants.

Import TaskManager.
Local Open Scope nat_scope.

Context {Coro : Type}.
Implicit Types (m : manager Coro) (t : task Coro) (task_id : string).

(** Every registered name refers to a task object of the loop that still
    holds the done callback of that name, and of that name only. *)
Abbreviation registered_ok m :=
  (∀ task_id (h : nat), tasks m !! task_id = Some h →
     ∃ t, loop m !! h = Some t ∧ callbacks t = [task_id]).

(** A task object keeps its place and its coroutine, keeps its state once
    done, and keeps a cancellation request once made. *)
Abbreviation evolves m m' :=
  (∀ (h : nat) t, loop m !! h = Some t →
     ∃ t', loop m' !! h = Some t' ∧ coro t' = coro t
           ∧ (done t = true → state t' = state t)
           ∧ (must_cancel t = true → must_cancel t' = true)).

(** The guard [if task_id in self.tasks] of [start_task] changes nothing:
    [cancel_task] does nothing on an unknown name. *)
Lemma start_task_alt task_id (c : Coro) m :
  start_task task_id c m =
    mkManager
      (<[task_id := length (loop m)]> (tasks m))
      (loop (cancel_task task_id m).1 ++ [mkTask c Pending false [task_id]])
      (log (cancel_task task_id m).1 ++ [LogStarted task_id]).
Proof.
  rewrite start_task_unfold. simpl.
  assert ((if decide (is_Some (tasks m !! task_id))
           then (cancel_task task_id m).1 else m) = (cancel_task task_id m).1)
    as ->.
  { destruct (decide _) as [|Hn]; [done|].
    apply eq_None_not_Some in Hn. unfold cancel_task. by rewrite Hn. }
  by rewrite cancel_task_length, cancel_task_tasks.
Qed.

Lemma finish_spec (h : nat) (s : task_state) m m' :
  finish h s m = Some m' →
  ∃ t, loop m !! h = Some t ∧ done t = false ∧ s ≠ Pending
       ∧ m' = mkManager (tasks m)
                (<[h := mkTask (coro t) s (must_cancel t) (callbacks t)]>
                   (loop m))
                (log m).
Proof.
  unfold finish. intros Hfin.
  destruct (loop m !! h) as [t|] eqn:Ht; [|by destruct s].
  destruct (done t) eqn:Hd; [by destruct s|].
  exists t. by destruct s; simplify_eq.
Qed.

Lemma apply_event_registered (ev : event Coro) m m' :
  apply_event ev m = Some m' → registered_ok m → registered_ok m'.
Proof.
  intros Hev Hok id h Hid.
  destruct ev as [id0 c|id0| |h0 s|h0]; simpl in Hev.
  - simplify_eq. rewrite start_task_alt in *. simpl in *.
    destruct (decide (id = id0)) as [->|Hne].
    + rewrite lookup_insert_eq in Hid. simplify_eq.
      rewrite <- (cancel_task_length id0 m), lookup_last. by eexists.
    + rewrite lookup_insert_ne in Hid by done.
      destruct (Hok id h Hid) as (t & Ht & Hcb).
      destruct (cancel_task_lookup id0 m h t Ht) as (t' & Ht' & _ & _ & Hcb' & _).
      exists t'. split; [|congruence].
      rewrite lookup_app_l; [done|]. by eapply lookup_lt_Some.
  - simplify_eq. rewrite cancel_task_tasks in Hid.
    destruct (Hok id h Hid) as (t & Ht & Hcb).
    destruct (cancel_task_lookup id0 m h t Ht) as (t' & Ht' & _ & _ & Hcb' & _).
    exists t'. split; [done|congruence].
  - simplify_eq. unfold cancel_all in *. rewrite cancel_all_over_tasks in Hid.
    destruct (Hok id h Hid) as (t & Ht & Hcb).
    destruct (cancel_all_over_lookup (map_to_list (tasks m)).*1 m h t Ht)
      as (t' & Ht' & _ & _ & Hcb' & _).
    exists t'. split; [done|congruence].
  - destruct (finish_spec _ _ _ _ Hev) as (t0 & Ht0 & _ & _ & ->).
    simpl in *. destruct (Hok id h Hid) as (t & Ht & Hcb).
    destruct (decide (h = h0)) as [->|Hne].
    + rewrite list_lookup_insert_eq by (by eapply lookup_lt_Some).
      simplify_eq. by eexists.
    + rewrite list_lookup_insert_ne by done. by exists t.
  - destruct (run_callbacks_spec _ _ _ Hev) as (t0 & Ht0 & _ & Hl & Htk).
    rewrite Htk in Hid.
    destruct (decide (id ∈ callbacks t0)) as [|Hnin]; [done|].
    destruct (Hok id h Hid) as (t & Ht & Hcb).
    exists t. split; [|done]. rewrite Hl.
    rewrite list_lookup_insert_ne; [done|]. intros <-. simplify_eq.
    destruct Hnin. rewrite Hcb. apply list_elem_of_here.
Qed.

Lemma apply_event_evolves (ev : event Coro) m m' :
  apply_event ev m = Some m' → evolves m m'.
Proof.
  intros Hev h t Ht.
  destruct ev as [id0 c|id0| |h0 s|h0]; simpl in Hev.
  - simplify_eq. rewrite start_task_alt. simpl.
    destruct (cancel_task_lookup id0 m h t Ht) as (t' & Ht' & Hc & Hs & _ & Hm).
    exists t'. rewrite lookup_app_l by (by eapply lookup_lt_Some).
    split_and!; try done. intros ?. apply Hm. by left.
  - simplify_eq.
    destruct (cancel_task_lookup id0 m h t Ht) as (t' & Ht' & Hc & Hs & _ & Hm).
    exists t'. split_and!; try done. intros ?. apply Hm. by left.
  - simplify_eq.
    destruct (cancel_all_over_lookup (map_to_list (tasks m)).*1 m h t Ht)
      as (t' & Ht' & Hc & Hs & _ & Hm).
    exists t'. split_and!; try done. intros ?. apply Hm. by left.
  - destruct (finish_spec _ _ _ _ Hev) as (t0 & Ht0 & Hd0 & _ & ->). simpl.
    destruct (decide (h = h0)) as [->|Hne].
    + rewrite list_lookup_insert_eq by (by eapply lookup_lt_Some).
      simplify_eq. eexists. split_and!; try done. congruence.
    + rewrite list_lookup_insert_ne by done. by exists t.
  - destruct (run_callbacks_spec _ _ _ Hev) as (t0 & Ht0 & _ & -> & _).
    destruct (decide (h = h0)) as [->|Hne].
    + rewrite list_lookup_insert_eq by (by eapply lookup_lt_Some).
      simplify_eq. by eexists.
    + rewrite list_lookup_insert_ne by done. by exists t.
Qed.

Lemma run_events_registered (evs : list (event Coro)) : ∀ m m',
  run_events evs m = Some m' → registered_ok m → registered_ok m'.
Proof.
  induction evs as [|ev evs IH]; intros m m' Hrun Hok; simplify_eq/=; [done|].
  destruct (apply_event ev m) as [m1|] eqn:Hev; [|done].
  eapply IH; [done|]. by eapply apply_event_registered.
Qed.

Lemma run_events_evolves (evs : list (event Coro)) : ∀ m m',
  run_events evs m = Some m' → evolves m m'.
Proof.
  induction evs as [|ev evs IH]; intros m m' Hrun h t Ht; simplify_eq/=.
  { by exists t. }
  destruct (apply_event ev m) as [m1|] eqn:Hev; [|done].
  destruct (apply_event_evolves _ _ _ Hev h t Ht) as (t1 & Ht1 & Hc1 & Hs1 & Hm1).
  destruct (IH _ _ Hrun h t1 Ht1) as (t' & Ht' & Hc & Hs & Hm).
  exists t'. split_and!; try congruence.
  - intros Hd. rewrite Hs, Hs1; [done..|]. unfold done. by rewrite Hs1.
  - auto.
Qed.

End task_manager_invariants.

Lemma cancel_all_over_length {Coro : Type} (keys : list string) :
  ∀ m : TaskManager.manager Coro,
    length (TaskManager.loop (TaskManager.cancel_all_over keys m)) =
    length (TaskManager.loop m).
Proof.
  induction keys as [|k keys IH]; intros m; [done|].
  unfold TaskManager.cancel_all_over in *. simpl.
  by rewrite IH, cancel_task_length.
Qed.

(** X13. [cancel_all], in whatever order it goes through the registered
    names, removes no entry from [self.tasks] and requests the cancellation
    of exactly the registered tasks that are not done: every other task
    object (done, or no longer registered) is left as it is, and no task
    changes state, coroutine or callbacks. *)
Theorem cancel_all_requests_running_tasks {Coro : Type}
    (m : TaskManager.manager Coro) (keys : list string) :
  keys ≡ₚ (map_to_list (TaskManager.tasks m)).*1 →
  TaskManager.tasks (TaskManager.cancel_all_over keys m) = TaskManager.tasks m
  ∧ length (TaskManager.loop (TaskManager.cancel_all_over keys m)) =
      length (TaskManager.loop m)
  ∧ ∀ (h : nat) t, TaskManager.loop m !! h = Some t →
      ∃ t', TaskManager.loop (TaskManager.cancel_all_over keys m) !! h
              = Some t'
            ∧ TaskManager.coro t' = TaskManager.coro t
            ∧ TaskManager.state t' = TaskManager.state t
            ∧ TaskManager.callbacks t' = TaskManager.callbacks t
            ∧ (TaskManager.must_cancel t' = true ↔
               TaskManager.must_cancel t = true
               ∨ (TaskManager.done t = false
                  ∧ ∃ task_id, TaskManager.tasks m !! task_id = Some h)).
Proof.
  intros Hkeys. split_and!.
  - apply cancel_all_over_tasks.
  - apply cancel_all_over_length.
  - intros h t Ht.
    destruct (cancel_all_over_lookup keys m h t Ht)
      as (t' & Ht' & Hc & Hs & Hcb & Hm).
    exists t'. split_and!; try done. rewrite Hm.
    split; (intros [?|[? (id & Hid)]]; [by left|right; split; [done|]]).
    + exists id. by destruct Hid.
    + exists id. split; [|done]. rewrite Hkeys.
      apply list_elem_of_fmap. exists (id, h). split; [done|].
      by apply elem_of_map_to_list.
Qed.

Lemma cancel_all_requests_running_tasks_witness :
  TaskManager.tasks (TaskManager.cancel_all Scenario.two_running) =
    TaskManager.tasks Scenario.two_running
  ∧ ∃ t', TaskManager.loop (TaskManager.cancel_all Scenario.two_running)
            !! 1%nat = Some t'
          ∧ TaskManager.must_cancel t' = true.
Proof.
  destruct (cancel_all_requests_running_tasks Scenario.two_running
              (map_to_list (TaskManager.tasks Scenario.two_running)).*1)
    as (Htasks & _ & Hlook); [reflexivity|].
  split; [exact Htasks|].
  destruct (Hlook 1%nat _ eq_refl) as (t' & Ht' & _ & _ & _ & Hm).
  exists t'. split; [exact Ht'|].
  apply Hm. right. split; [reflexivity|]. by exists "t2".
Defined.

(** X14. The life of a task under a new name: [start_task] registers it;
    once it is done and its done callback has run, the registry is exactly
    what it was before the start, the task object is left on the loop in its
    final state with no callback, and the log has gained the start record
    and the record that [_task_completed] chooses for the outcome:
    cancelled; failed, when the task raised an exception whose truth value
    is true; completed otherwise, which includes a task that raised an
    exception whose truth value is false. *)
Theorem task_lifecycle_round_trip {Coro : Type}
    (m : TaskManager.manager Coro) (task_id : string) (c : Coro)
    (s : TaskManager.task_state) :
  TaskManager.tasks m !! task_id = None →
  s ≠ TaskManager.Pending →
  let h := length (TaskManager.loop m) in
  ∃ m2 m3 r,
    TaskManager.finish h s (TaskManager.start_task task_id c m) = Some m2
    ∧ TaskManager.tasks m2 !! task_id = Some h
    ∧ TaskManager.run_callbacks h m2 = Some m3
    ∧ TaskManager.classify task_id (TaskManager.mkTask c s false []) = Some r
    ∧ m3 = TaskManager.mkManager (TaskManager.tasks m)
             (TaskManager.loop m ++ [TaskManager.mkTask c s false []])
             (TaskManager.log m ++ [TaskManager.LogStarted task_id; r]).
Proof.
  intros Hnew Hs h.
  assert (TaskManager.start_task task_id c m =
            TaskManager.mkManager (<[task_id := h]> (TaskManager.tasks m))
              (TaskManager.loop m
                 ++ [TaskManager.mkTask c TaskManager.Pending false [task_id]])
              (TaskManager.log m ++ [TaskManager.LogStarted task_id])) as ->.
  { rewrite start_task_alt. unfold TaskManager.cancel_task. by rewrite Hnew. }
  assert (∃ r, TaskManager.classify task_id (TaskManager.mkTask c s false [])
               = Some r) as [r Hr]
    by (destruct s as [| |e|];
          [done|by eexists
          |unfold TaskManager.classify; simpl;
           destruct (Http.exn_bool e); by eexists
          |by eexists]).
  exists (TaskManager.mkManager (<[task_id := h]> (TaskManager.tasks m))
            (TaskManager.loop m
               ++ [TaskManager.mkTask c s false [task_id]])
            (TaskManager.log m ++ [TaskManager.LogStarted task_id])).
  exists (TaskManager.mkManager (TaskManager.tasks m)
            (TaskManager.loop m ++ [TaskManager.mkTask c s false []])
            (TaskManager.log m ++ [TaskManager.LogStarted task_id; r])).
  exists r. split_and!.
  - unfold TaskManager.finish. simpl. subst h. rewrite lookup_last. simpl.
    rewrite insert_last. by destruct s.
  - simpl. apply lookup_insert_eq.
  - unfold TaskManager.run_callbacks. simpl. subst h. rewrite lookup_last.
    simpl. assert (TaskManager.done
                     (TaskManager.mkTask c s false [task_id]) = true) as ->
      by (by destruct s).
    simpl. unfold TaskManager._task_completed. simpl.
    rewrite lookup_insert_eq, decide_True by done.
    rewrite insert_last, lookup_last. simpl.
    unfold TaskManager.classify in *. simpl in *. rewrite Hr.
    by rewrite delete_insert_id, <- app_assoc.
  - done.
  - done.
Qed.

Lemma task_lifecycle_round_trip_witness :
  ∃ m2 m3,
    TaskManager.finish 1 (TaskManager.Failed Scenario.falsy_error)
      (TaskManager.start_task "t2" () Scenario.one_running) = Some m2
    ∧ TaskManager.tasks m2 !! "t2" = Some 1%nat
    ∧ TaskManager.run_callbacks 1 m2 = Some m3
    ∧ m3 = TaskManager.mkManager (TaskManager.tasks Scenario.one_running)
             (TaskManager.loop Scenario.one_running
                ++ [TaskManager.mkTask ()
                      (TaskManager.Failed Scenario.falsy_error) false []])
             (TaskManager.log Scenario.one_running
                ++ [TaskManager.LogStarted "t2";
                    TaskManager.LogTaskCompleted "t2"]).
Proof.
  destruct (task_lifecycle_round_trip Scenario.one_running "t2" ()
              (TaskManager.Failed Scenario.falsy_error))
    as (m2 & m3 & r & Hfin & Hreg & Hrun & Hclass & Hm3);
    [reflexivity|discriminate|].
  vm_compute in Hclass. injection Hclass as <-.
  exists m2, m3. split_and!; assumption.
Defined.

Lemma task_ext {Coro : Type} (t t' : TaskManager.task Coro) :
  TaskManager.coro t' = TaskManager.coro t →
  TaskManager.state t' = TaskManager.state t →
  TaskManager.callbacks t' = TaskManager.callbacks t →
  (TaskManager.must_cancel t' = true ↔ TaskManager.must_cancel t = true) →
  t' = t.
Proof.
  destruct t as [c s mc cb], t' as [c' s' mc' cb']; simpl.
  intros -> -> -> Hm. f_equal.
  destruct mc, mc'; try done; [by apply Hm|symmetry; by apply Hm].
Qed.

(** X15. [start_task] touches only its own name: every other entry of
    [self.tasks] is kept, the loop gains exactly one task object, and the
    only existing task object that can change is the one registered under
    that name before, and only if it is not done. *)
Theorem start_task_touches_only_its_name {Coro : Type}
    (m : TaskManager.manager Coro) (task_id : string) (c : Coro) :
  (∀ other, other ≠ task_id →
     TaskManager.tasks (TaskManager.start_task task_id c m) !! other =
     TaskManager.tasks m !! other)
  ∧ length (TaskManager.loop (TaskManager.start_task task_id c m)) =
      S (length (TaskManager.loop m))
  ∧ (∀ (h : nat) t, TaskManager.loop m !! h = Some t →
       TaskManager.tasks m !! task_id ≠ Some h ∨ TaskManager.done t = true →
       TaskManager.loop (TaskManager.start_task task_id c m) !! h = Some t).
Proof.
  rewrite start_task_alt. simpl. split_and!.
  - intros other Hne. by rewrite lookup_insert_ne.
  - rewrite length_app, cancel_task_length. simpl. lia.
  - intros h t Ht Hfree.
    destruct (cancel_task_lookup task_id m h t Ht)
      as (t' & Ht' & Hc & Hs & Hcb & Hm).
    rewrite lookup_app_l by (by eapply lookup_lt_Some).
    rewrite Ht'. f_equal. apply task_ext; try done.
    rewrite Hm. split; [|by left].
    intros [?|[Hd Hid]]; [done|]. destruct Hfree; congruence.
Qed.

(** X16. In every state that a manager reaches from its creation, by calls
    of its methods and moves of the event loop, each registered name refers
    to a task object that is on the loop and still holds the done callback
    of that name and no other; no two names refer to the same task; and
    [cancel_task] returns [False] only for a name that is unknown or whose
    task is done. *)
Theorem registry_refers_to_live_tasks {Coro : Type}
    (evs : list (TaskManager.event Coro)) (m : TaskManager.manager Coro) :
  TaskManager.run_events evs TaskManager.init = Some m →
  (∀ task_id (h : nat), TaskManager.tasks m !! task_id = Some h →
     ∃ t, TaskManager.loop m !! h = Some t
          ∧ TaskManager.callbacks t = [task_id])
  ∧ (∀ id1 id2 (h : nat), TaskManager.tasks m !! id1 = Some h →
       TaskManager.tasks m !! id2 = Some h → id1 = id2)
  ∧ (∀ task_id, (TaskManager.cancel_task task_id m).2 = false →
       TaskManager.tasks m !! task_id = None
       ∨ ∃ (h : nat) t, TaskManager.tasks m !! task_id = Some h
                        ∧ TaskManager.loop m !! h = Some t
                        ∧ TaskManager.done t = true).
Proof.
  intros Hrun.
  assert (∀ task_id (h : nat), TaskManager.tasks m !! task_id = Some h →
            ∃ t, TaskManager.loop m !! h = Some t
                 ∧ TaskManager.callbacks t = [task_id]) as Hok.
  { eapply run_events_registered; [done|]. intros id h Hid. done. }
  split_and!.
  - done.
  - intros id1 id2 h H1 H2.
    destruct (Hok id1 h H1) as (t1 & Ht1 & Hcb1).
    destruct (Hok id2 h H2) as (t2 & Ht2 & Hcb2). congruence.
  - intros id. unfold TaskManager.cancel_task.
    destruct (TaskManager.tasks m !! id) as [h|] eqn:Hid; [|by left].
    destruct (Hok id h Hid) as (t & Ht & _). rewrite Ht.
    destruct (TaskManager.done t) eqn:Hd; [|done].
    intros _. right. by exists h, t.
Qed.

Lemma registry_refers_to_live_tasks_witness :
  ∃ t, TaskManager.loop Scenario.two_running !! 1%nat = Some t
       ∧ TaskManager.callbacks t = ["t2"].
Proof.
  apply (proj1 (registry_refers_to_live_tasks
                  [TaskManager.Start "t1" (); TaskManager.Start "t2" ()]
                  Scenario.two_running eq_refl) "t2" 1%nat).
  reflexivity.
Defined.

(** X17. Whatever happens to a manager, a task object stays where it is on
    the loop with its coroutine, a task that is done keeps its state for
    good (a done state is final: no method and no move of the loop changes
    it), and a cancellation once requested is never withdrawn. *)
Theorem task_objects_only_move_forward {Coro : Type}
    (evs : list (TaskManager.event Coro)) (m m' : TaskManager.manager Coro) :
  TaskManager.run_events evs m = Some m' →
  ∀ (h : nat) t, TaskManager.loop m !! h = Some t →
    ∃ t', TaskManager.loop m' !! h = Some t'
          ∧ TaskManager.coro t' = TaskManager.coro t
          ∧ (TaskManager.done t = true →
             TaskManager.state t' = TaskManager.state t)
          ∧ (TaskManager.must_cancel t = true →
             TaskManager.must_cancel t' = true).
Proof. apply run_events_evolves. Qed.

Lemma task_objects_only_move_forward_witness :
  ∃ m' t',
    TaskManager.run_events
      [TaskManager.Cancel "t1"; TaskManager.Finish 0 TaskManager.Cancelled;
       TaskManager.Callbacks 0; TaskManager.Start "t1" ();
       TaskManager.CancelAll]
      Scenario.one_running = Some m'
    ∧ TaskManager.loop m' !! 0%nat = Some t'
    ∧ TaskManager.coro t' = ().
Proof.
  destruct (TaskManager.run_events
              [TaskManager.Cancel "t1";
               TaskManager.Finish 0 TaskManager.Cancelled;
               TaskManager.Callbacks 0; TaskManager.Start "t1" ();
               TaskManager.CancelAll]
              Scenario.one_running) as [m'|] eqn:Hrun;
    [|vm_compute in Hrun; discriminate Hrun].
  destruct (task_objects_only_move_forward _ _ _ Hrun 0%nat _ eq_refl)
    as (t' & Ht' & Hc & _).
  exists m', t'. split; [reflexivity|]. split; [exact Ht'|exact Hc].
Defined.

(** X18. [cancel_task] on a task whose cancellation has been requested but
    which is not done yet returns [True] again: the second call changes no
    task and no entry, and only logs a second "Cancelled task" record. *)
Theorem cancel_task_twice {Coro : Type}
    (m : TaskManager.manager Coro) (task_id : string) (h : nat)
    (t : TaskManager.task Coro) :
  TaskManager.tasks m !! task_id = Some h →
  TaskManager.loop m !! h = Some t →
  TaskManager.done t = false →
  let m1 := (TaskManager.cancel_task task_id m).1 in
  (TaskManager.cancel_task task_id m).2 = true
  ∧ TaskManager.cancel_task task_id m1 =
      (TaskManager.mkManager (TaskManager.tasks m1) (TaskManager.loop m1)
         (TaskManager.log m
            ++ [TaskManager.LogCancelled task_id;
                TaskManager.LogCancelled task_id]), true).
Proof.
  intros Hid Ht Hd. unfold TaskManager.cancel_task.
  rewrite Hid, Ht, Hd. simpl. split; [done|].
  rewrite Hid, list_lookup_insert_eq by (by eapply lookup_lt_Some).
  unfold TaskManager.cancel, TaskManager.done in *. simpl.
  destruct (TaskManager.state t) eqn:Hs; try done. simpl.
  by rewrite list_insert_insert_eq, <- app_assoc.
Qed.

Lemma cancel_task_twice_witness :
  (TaskManager.cancel_task "t1" Scenario.one_running).2 = true
  ∧ (TaskManager.cancel_task "t1"
       (TaskManager.cancel_task "t1" Scenario.one_running).1).2 = true.
Proof.
  destruct (cancel_task_twice Scenario.one_running "t1" 0%nat _
              eq_refl eq_refl eq_refl) as [H1 H2].
  split; [exact H1|]. by rewrite H2.
Defined.

(** X19. The done callbacks of a task run once: their run unregisters the
    names they were registered for, keeps every other entry, and leaves the
    task without callbacks, so that a second run changes nothing at all. *)
Theorem done_callbacks_run_once {Coro : Type}
    (m m' : TaskManager.manager Coro) (h : nat) :
  TaskManager.run_callbacks h m = Some m' →
  (∃ t, TaskManager.loop m !! h = Some t
        ∧ ∀ task_id, TaskManager.tasks m' !! task_id =
            if decide (task_id ∈ TaskManager.callbacks t) then None
            else TaskManager.tasks m !! task_id)
  ∧ TaskManager.run_callbacks h m' = Some m'.
Proof.
  intros Hrun.
  destruct (run_callbacks_spec _ _ _ Hrun) as (t & Ht & Hd & Hl & Htk).
  split; [by exists t|].
  unfold TaskManager.run_callbacks. rewrite Hl.
  rewrite list_lookup_insert_eq by (by eapply lookup_lt_Some).
  unfold TaskManager.done in *. simpl. rewrite Hd. simpl.
  rewrite list_insert_insert_eq, <- Hl. by destruct m'.
Qed.

Lemma done_callbacks_run_once_witness :
  ∃ m2 m3,
    TaskManager.finish 0 TaskManager.Completed Scenario.one_running = Some m2
    ∧ TaskManager.run_callbacks 0 m2 = Some m3
    ∧ TaskManager.tasks m3 !! "t1" = None
    ∧ TaskManager.run_callbacks 0 m3 = Some m3.
Proof.
  destruct (TaskManager.finish 0 TaskManager.Completed Scenario.one_running)
    as [m2|] eqn:Hfin; [|vm_compute in Hfin; discriminate Hfin].
  destruct (TaskManager.run_callbacks 0 m2) as [m3|] eqn:Hrun.
  - destruct (done_callbacks_run_once m2 m3 0%nat Hrun)
      as [(t & Ht & Htk) Hagain].
    exists m2, m3. split; [reflexivity|]. split; [exact Hrun|].
    split; [|exact Hagain].
    rewrite (Htk "t1").
    vm_compute in Hfin. injection Hfin as <-.
    vm_compute in Ht. injection Ht as <-. reflexivity.
  - vm_compute in Hfin. injection Hfin as <-.
    vm_compute in Hrun. discriminate Hrun.
Defined.

(* ===================================================================== *)
(** ** Properties of the code analysis agent                              *)
(* ===================================================================== *)

Section agent.

Import Agent.

Lemma can_handle_only_analysis (a : agent) (task_type : string) :
  capabilities a = [analyze_complexity_capability] →
  can_handle_task a task_type =
    String.eqb "analyze_complexity" task_type.
Proof.
  intros Hcap. unfold can_handle_task. rewrite Hcap. simpl.
  by rewrite orb_false_r.
Qed.

(** What one call of [execute_task] keeps and where it leaves the status. *)
Lemma execute_task_keeps (sleep : Http.outcome unit) (a : agent)
    (task_type : string) (parameters : gmap string value) :
  agent_id (execute_task sleep a task_type parameters).1 = agent_id a
  ∧ agent_name (execute_task sleep a task_type parameters).1 = agent_name a
  ∧ capabilities (execute_task sleep a task_type parameters).1
      = capabilities a
  ∧ (status (execute_task sleep a task_type parameters).1 = OFFLINE →
     status a = OFFLINE).
Proof.
  unfold execute_task.
  destruct (negb (can_handle_task a task_type)); [done|].
  destruct (if String.eqb task_type "analyze_complexity"
            then _analyze_complexity sleep parameters
            else Http.Raises (ValueError ("Unknown task type: " +:+ task_type)))
    as [result|e]; [done|].
  by destruct (Http.is_exception e).
Qed.

End agent.

(** X20. A code analysis agent, whatever its current status (also [ERROR]
    or [OFFLINE]: the status is not consulted), answers a task as follows
    when its sleep is not interrupted. A task type other than
    "analyze_complexity" is refused with the "cannot handle" message and
    the agent is left untouched; "analyze_complexity" with a "file_path"
    succeeds, echoes the path in the mock result and leaves the agent
    [IDLE]; without "file_path" the [KeyError] is caught, the result is a
    failure whose message is the quoted key, and the agent is left in
    [ERROR]. *)
Theorem code_analysis_agent_outcomes
    (a : Agent.agent) (task_type : string)
    (parameters : gmap string Agent.value) :
  Agent.capabilities a = [Agent.analyze_complexity_capability] →
  (task_type ≠ "analyze_complexity" →
   ∀ sleep, Agent.execute_task sleep a task_type parameters =
     (a, Http.Returns
           (Agent.mkTaskResult false Agent.VNone
              (Some ("Agent " +:+ Agent.agent_id a
                     +:+ " cannot handle task type: " +:+ task_type))
              None)))
  ∧ (∀ file_path, parameters !! "file_path" = Some file_path →
     Agent.execute_task (Http.Returns ()) a "analyze_complexity" parameters =
       (Agent.set_status Agent.IDLE a,
        Http.Returns
          (Agent.mkTaskResult true
             (Agent.VDict
                [("cyclomatic_complexity", Agent.VFloat "3.2");
                 ("lines_of_code", Agent.VInt 156);
                 ("function_count", Agent.VInt 8);
                 ("file_path", file_path)])
             None None)))
  ∧ (parameters !! "file_path" = None →
     ∀ sleep, Agent.execute_task sleep a "analyze_complexity" parameters =
       (Agent.set_status Agent.ERROR a,
        Http.Returns
          (Agent.mkTaskResult false Agent.VNone (Some "'file_path'") None))).
Proof.
  intros Hcap. split_and!.
  - intros Hne sleep. unfold Agent.execute_task.
    rewrite (can_handle_only_analysis _ _ Hcap).
    assert (String.eqb "analyze_complexity" task_type = false) as ->; [|done].
    apply String.eqb_neq. congruence.
  - intros fp Hfp. unfold Agent.execute_task.
    rewrite (can_handle_only_analysis _ _ Hcap). simpl.
    unfold Agent._analyze_complexity. by rewrite Hfp.
  - intros Hnone sleep. unfold Agent.execute_task.
    rewrite (can_handle_only_analysis _ _ Hcap). simpl.
    unfold Agent._analyze_complexity. by rewrite Hnone.
Qed.

Lemma code_analysis_agent_outcomes_witness :
  Agent.execute_task (Http.Returns ())
    (Agent.set_status Agent.ERROR (Agent.CodeAnalysisAgent "a1" "analysis"))
    "analyze_complexity" {["file_path" := Agent.VStr "m.py"]} =
  (Agent.CodeAnalysisAgent "a1" "analysis",
   Http.Returns
     (Agent.mkTaskResult true
        (Agent.VDict
           [("cyclomatic_complexity", Agent.VFloat "3.2");
            ("lines_of_code", Agent.VInt 156);
            ("function_count", Agent.VInt 8);
            ("file_path", Agent.VStr "m.py")])
        None None)).
Proof.
  apply (proj1 (proj2 (code_analysis_agent_outcomes
           (Agent.set_status Agent.ERROR
              (Agent.CodeAnalysisAgent "a1" "analysis"))
           "analyze_complexity" {["file_path" := Agent.VStr "m.py"]}
           eq_refl)) (Agent.VStr "m.py")).
  reflexivity.
Defined.

(** X21. [execute_task] never lets an [Exception] out. It returns a result
    whose [success] goes with a status [IDLE] and no error message, and
    whose failure carries an error message and no data, the agent being in
    [ERROR] or untouched. The one way out by an exception is an
    interruption of the sleep by something that is no [Exception] (a
    cancellation): it passes through, and the agent is left [BUSY]. The
    identity and the capabilities of the agent never change. *)
Theorem execute_task_outcomes
    (sleep : Http.outcome unit) (a : Agent.agent) (task_type : string)
    (parameters : gmap string Agent.value) :
  Agent.agent_id (Agent.execute_task sleep a task_type parameters).1
    = Agent.agent_id a
  ∧ Agent.capabilities (Agent.execute_task sleep a task_type parameters).1
      = Agent.capabilities a
  ∧ match (Agent.execute_task sleep a task_type parameters).2 with
    | Http.Returns r =>
        if Agent.success r
        then Agent.status (Agent.execute_task sleep a task_type parameters).1
               = Agent.IDLE
             ∧ Agent.error_message r = None
        else Agent.data r = Agent.VNone
             ∧ is_Some (Agent.error_message r)
             ∧ ((Agent.execute_task sleep a task_type parameters).1
                  = Agent.set_status Agent.ERROR a
                ∨ (Agent.execute_task sleep a task_type parameters).1 = a)
    | Http.Raises e =>
        Http.is_exception e = false ∧ sleep = Http.Raises e
        ∧ (Agent.execute_task sleep a task_type parameters).1
            = Agent.set_status Agent.BUSY a
    end.
Proof.
  destruct (execute_task_keeps sleep a task_type parameters)
    as (Hid & _ & Hcap & _).
  split; [done|]. split; [done|].
  unfold Agent.execute_task.
  destruct (negb (Agent.can_handle_task a task_type)); simpl; [eauto|].
  destruct (String.eqb task_type "analyze_complexity"); simpl; [|eauto].
  unfold Agent._analyze_complexity.
  destruct (parameters !! "file_path") as [fp|]; simpl; [|eauto].
  destruct sleep as [[]|e]; simpl; [done|].
  destruct (Http.is_exception e) eqn:He; simpl; eauto.
Qed.

(** X22. A code analysis agent stays in service: after any series of
    [execute_task] calls on a freshly created agent, whatever the tasks,
    their parameters and their outcomes (failures and interruptions
    included), [health_check] answers [True], the agent has its one
    capability and its identifier, and it handles exactly the task type
    "analyze_complexity". *)
Theorem code_analysis_agent_stays_in_service
    (calls : list (Http.outcome unit * string * gmap string Agent.value))
    (agent_id name : string) :
  Agent.health_check
    (Agent.execute_tasks calls (Agent.CodeAnalysisAgent agent_id name)) = true
  ∧ Agent.get_capabilities
      (Agent.execute_tasks calls (Agent.CodeAnalysisAgent agent_id name))
    = [Agent.analyze_complexity_capability]
  ∧ Agent.agent_id
      (Agent.execute_tasks calls (Agent.CodeAnalysisAgent agent_id name))
    = agent_id
  ∧ ∀ task_type,
      Agent.can_handle_task
        (Agent.execute_tasks calls (Agent.CodeAnalysisAgent agent_id name))
        task_type = true
      ↔ task_type = "analyze_complexity".
Proof.
  assert (∀ a, Agent.status a ≠ Agent.OFFLINE →
            Agent.status (Agent.execute_tasks calls a) ≠ Agent.OFFLINE
            ∧ Agent.capabilities (Agent.execute_tasks calls a)
                = Agent.capabilities a
            ∧ Agent.agent_id (Agent.execute_tasks calls a)
                = Agent.agent_id a) as Hinv.
  { induction calls as [|[[sleep tt] ps] calls IH]; intros a Ha; [done|].
    simpl. destruct (execute_task_keeps sleep a tt ps)
      as (Hid & _ & Hcap & Hoff).
    destruct (IH (Agent.execute_task sleep a tt ps).1) as (H1 & H2 & H3).
    { intros Hs. by apply Ha, Hoff. }
    split_and!; [done|congruence..]. }
  destruct (Hinv (Agent.CodeAnalysisAgent agent_id name))
    as (Hst & Hcap & Hid); [done|].
  split_and!.
  - unfold Agent.health_check.
    by destruct (Agent.status (Agent.execute_tasks calls _)).
  - done.
  - done.
  - intros tt. rewrite (can_handle_only_analysis _ _ Hcap).
    rewrite String.eqb_eq. split; congruence.
Qed.

(* ===================================================================== *)
(** ** Properties of the analysis and of its reports                      *)
(* ===================================================================== *)

Section cli.

Import Cli.

Lemma dict_set_keys {V} (k : string) (v : V) (d : list (string * V)) :
  (dict_set k v d).*1 = if decide (k ∈ d.*1) then d.*1 else d.*1 ++ [k].
Proof.
  induction d as [|[k' v'] d IH]; csimpl.
  - first [done | by case_decide as H; [apply elem_of_nil in H|]].
  - destruct (String.eqb k' k) eqn:Hk; csimpl.
    + apply String.eqb_eq in Hk as ->. clear IH.
      destruct (decide (k ∈ k :: d.*1)) as [|Hn]; [done|].
      destruct Hn. apply list_elem_of_here.
    + apply String.eqb_neq in Hk. rewrite IH. clear IH.
      destruct (decide (k ∈ d.*1)) as [Hin|Hnin].
      * destruct (decide (k ∈ k' :: d.*1)) as [|Hn]; [done|].
        destruct Hn. by apply list_elem_of_further.
      * by destruct (decide (k ∈ k' :: d.*1)) as [[?|?]%elem_of_cons|].
Qed.

Lemma dict_set_values {V} (P : V → Prop) (k : string) (v : V)
    (d : list (string * V)) :
  P v → Forall (λ kv, P kv.2) d → Forall (λ kv, P kv.2) (dict_set k v d).
Proof.
  intros Hv. induction 1 as [|[k' v'] d Hx Hd IH]; simpl.
  - by repeat constructor.
  - destruct (String.eqb k' k); constructor; done.
Qed.

Lemma dict_set_new {V} (k : string) (v : V) (d : list (string * V)) :
  k ∉ d.*1 → dict_set k v d = d ++ [(k, v)].
Proof.
  induction d as [|[k' v'] d IH]; simpl; intros Hk; [done|].
  destruct (String.eqb k' k) eqn:Heq.
  - apply String.eqb_eq in Heq as ->. destruct Hk. apply list_elem_of_here.
  - rewrite IH; [done|]. intros Hin. apply Hk. by apply list_elem_of_further.
Qed.

(** The dict that the loop of [perform_analysis] builds from [d]. *)
Lemma analysis_fold (files : list string) :
  ∀ d : list (string * file_report),
    NoDup d.*1 → Forall (λ kv, kv.2 = mock_report) d →
    NoDup (foldl (λ d f, dict_set f mock_report d) d files).*1
    ∧ Forall (λ kv, kv.2 = mock_report)
        (foldl (λ d f, dict_set f mock_report d) d files)
    ∧ (∀ f, f ∈ (foldl (λ d f, dict_set f mock_report d) d files).*1
            ↔ f ∈ d.*1 ∨ f ∈ files)
    ∧ (NoDup files → (∀ f, f ∈ files → f ∉ d.*1) →
       foldl (λ d f, dict_set f mock_report d) d files =
         d ++ ((λ f, (f, mock_report)) <$> files)).
Proof.
  induction files as [|x files IH]; intros d Hnd Hall; simpl.
  - split_and!; try done.
    + intros f. split; [by left|]. by intros [?|?%elem_of_nil].
    + intros _ _. by rewrite app_nil_r.
  - destruct (IH (dict_set x mock_report d)) as (H1 & H2 & H3 & H4).
    { rewrite dict_set_keys. destruct (decide (x ∈ d.*1)); [done|].
      apply NoDup_app. split_and!; [done| |apply NoDup_singleton].
      intros y Hy ->%list_elem_of_singleton. done. }
    { by apply (dict_set_values (λ v, v = mock_report)). }
    split_and!; try done.
    + intros f. rewrite H3, dict_set_keys, elem_of_cons.
      destruct (decide (x ∈ d.*1)) as [Hin|Hnin].
      * split; [tauto|]. intros [?|[Hf|?]]; [tauto| |tauto].
        subst f. by left.
      * rewrite elem_of_app, list_elem_of_singleton. tauto.
    + intros Hfiles Hfresh. apply NoDup_cons in Hfiles as [Hx Hfiles].
      rewrite H4; [|done|].
      * rewrite dict_set_new by (apply Hfresh, list_elem_of_here).
        by rewrite <- app_assoc.
      * intros f Hf. rewrite dict_set_keys.
        destruct (decide (x ∈ d.*1)) as [Hin|_].
        { destruct (Hfresh x); [apply list_elem_of_here|done]. }
        rewrite elem_of_app, list_elem_of_singleton. intros [Hd| ->]; [|done].
        by apply (Hfresh f); [apply list_elem_of_further|].
Qed.

End cli.

(** The fields of the results of an analysis over distinct files. *)
Lemma perform_analysis_fields (fs : Cli.filesystem) (p : string)
    (verbose : bool) :
  NoDup (if Cli.is_dir fs p then Cli.rglob_py fs p else [p]) →
  Cli.total_files (Cli.perform_analysis fs p verbose false).1 =
    Some (Z.of_nat
            (length (if Cli.is_dir fs p then Cli.rglob_py fs p else [p])))
  ∧ Cli.path (Cli.perform_analysis fs p verbose false).1 = Some p
  ∧ Cli.analysis (Cli.perform_analysis fs p verbose false).1 =
      Some ((λ f, (f, Cli.mock_report))
              <$> (if Cli.is_dir fs p then Cli.rglob_py fs p else [p])).
Proof.
  intros Hnd. unfold Cli.perform_analysis. simpl.
  destruct (analysis_fold
              (if Cli.is_dir fs p then Cli.rglob_py fs p else [p]) [])
    as (_ & _ & _ & H4); [apply NoDup_nil_2|done|].
  split_and!; try done. rewrite H4; [done|done|].
  intros f _ Hf. by apply elem_of_nil in Hf.
Qed.

(** X23. An analysis that is no dry run counts the files it was given (the
    Python files under a directory, or the one file) in ["total_files"],
    and its ["analysis"] holds exactly those files as keys, each once, each
    with the mock report; when no file is listed twice it holds one entry
    per file, in the order of the files. *)
Theorem perform_analysis_reports_each_file
    (fs : Cli.filesystem) (p : string) (verbose : bool) :
  let files := if Cli.is_dir fs p then Cli.rglob_py fs p else [p] in
  let r := (Cli.perform_analysis fs p verbose false).1 in
  Cli.total_files r = Some (Z.of_nat (length files))
  ∧ Cli.path r = Some p
  ∧ NoDup (Cli.analysis_items r).*1
  ∧ (∀ f, f ∈ (Cli.analysis_items r).*1 ↔ f ∈ files)
  ∧ Forall (λ kv, kv.2 = Cli.mock_report) (Cli.analysis_items r)
  ∧ (NoDup files →
     Cli.analysis r = Some ((λ f, (f, Cli.mock_report)) <$> files)).
Proof.
  intros files r. subst r. unfold Cli.perform_analysis, Cli.analysis_items.
  simpl. fold files.
  destruct (analysis_fold files []) as (H1 & H2 & H3 & H4);
    [apply NoDup_nil_2|done|].
  split_and!; try done.
  - intros f. rewrite H3. split; [|by right].
    by intros [?%elem_of_nil|?].
  - intros Hnd. rewrite H4; [done|done|]. intros f _ Hf.
    by apply elem_of_nil in Hf.
Qed.

(** X24. The reports of an analysis whose files are all different: the CSV
    is the header line followed by one line "file,42,3,2.5" per file, and
    the table is its six heading lines, with the number of files and the
    path, followed by one line per file, both in the order of the files. *)
Theorem analysis_reports_one_line_per_file
    (fs : Cli.filesystem) (p : string) (verbose : bool) :
  NoDup (if Cli.is_dir fs p then Cli.rglob_py fs p else [p]) →
  let files := if Cli.is_dir fs p then Cli.rglob_py fs p else [p] in
  let r := (Cli.perform_analysis fs p verbose false).1 in
  Cli.csv_lines r =
    "file,lines,functions,complexity"
    :: ((λ f, f +:+ ",42,3,2.5") <$> files)
  ∧ Cli.table_lines r =
      ["File Analysis Results";
       "==================================================";
       "Total files: " +:+ pretty (Z.of_nat (length files));
       "Path: " +:+ p;
       "";
       "Files analyzed:"]
      ++ ((λ f, "  " +:+ f +:+ ": 42 lines, 3 functions") <$> files).
Proof.
  intros Hnd files r.
  destruct (perform_analysis_fields fs p verbose Hnd) as (Ht & Hp & Ha).
  fold files in Ht, Ha. fold r in Ht, Hp, Ha.
  unfold Cli.csv_lines, Cli.table_lines, Cli.analysis_items.
  rewrite Ht, Hp, Ha. simpl. split.
  - f_equal. rewrite <- list_fmap_compose. by apply list_fmap_ext.
  - do 6 f_equal. rewrite <- list_fmap_compose. by apply list_fmap_ext.
Qed.

Lemma analysis_reports_one_line_per_file_witness :
  Cli.csv_lines (Cli.perform_analysis Scenario.project "src" false false).1 =
    ["file,lines,functions,complexity";
     "src/a.py,42,3,2.5"; "src/pkg/b.py,42,3,2.5"]
  ∧ Cli.table_lines
      (Cli.perform_analysis Scenario.project "src" false false).1 =
    ["File Analysis Results";
     "==================================================";
     "Total files: 2";
     "Path: src";
     "";
     "Files analyzed:";
     "  src/a.py: 42 lines, 3 functions";
     "  src/pkg/b.py: 42 lines, 3 functions"].
Proof.
  apply (analysis_reports_one_line_per_file Scenario.project "src" false).
  simpl. apply NoDup_cons. split.
  - intros H%list_elem_of_singleton. discriminate H.
  - apply NoDup_singleton.
Defined.

(** X25. A dry run never looks at the file system and reports no file: its
    results hold only ["dry_run"] and ["path"], so the CSV made from them
    is the header line alone and the table says "Total files: 0" with an
    empty list of files, whatever is on disk. *)
Theorem dry_run_reports_no_file
    (fs fs' : Cli.filesystem) (p : string) (verbose : bool) :
  Cli.perform_analysis fs p verbose true =
    Cli.perform_analysis fs' p verbose true
  ∧ (Cli.perform_analysis fs p verbose true).1 =
      Cli.mkResults (Some true) (Some p) None None
  ∧ Cli.csv_lines (Cli.perform_analysis fs p verbose true).1 =
      ["file,lines,functions,complexity"]
  ∧ Cli.table_lines (Cli.perform_analysis fs p verbose true).1 =
      ["File Analysis Results";
       "==================================================";
       "Total files: 0";
       "Path: " +:+ p;
       "";
       "Files analyzed:"].
Proof. by split_and!. Qed.

(** X26. What giving up costs: when every attempt fails and no backoff
    sleep is interrupted, [_request] with budget [retries >= 0] alternates
    calls and sleeps, sleeping after every attempt but the last, for
    [2 ^ retries - 1] seconds in all (1 + 2 + 4 = 7 for the default budget)
    before it returns; the last thing it does is the call of attempt
    [retries]. *)
Theorem request_exhaustion_cost
    (session : Http.transport) (sleep : Http.sleeper) (method url : string)
    (retries : Z) :
  0 ≤ retries →
  (∀ k, 0 ≤ k ≤ retries → ∃ e, Http.attempt_fails session method url k e) →
  (∀ k, 0 ≤ k < retries → sleep k = Http.Returns ()) →
  (Http._request session sleep method url retries).2 =
    flat_map (λ k, [Http.EvCall method url k;
                    Http.EvSleep (Http.wait_time k)])
      (Http.range retries)
    ++ [Http.EvCall method url retries]
  ∧ Http.total_sleep (Http._request session sleep method url retries).2 =
      2 ^ retries - 1.
Proof.
  intros Hr Hfail Hsleep. unfold Http._request, Http.range.
  replace (retries + 1) with (Z.of_nat (S (Z.to_nat retries))) by lia.
  rewrite (loop_exhausts session sleep method url retries
             (Z.to_nat retries) 0 None);
    [|intros k Hk; apply Hfail; lia|intros k Hk; apply Hsleep; lia|lia].
  rewrite !Z2Nat.id, Z.add_0_l by lia. split; [done|].
  rewrite total_sleep_app, <- (Z2Nat.id retries) at 1 by lia.
  rewrite total_sleep_failed_prefix by lia.
  rewrite Z2Nat.id, Z.add_0_l, Z.pow_0_r by lia.
  unfold Http.total_sleep. simpl. lia.
Qed.

Lemma request_exhaustion_cost_witness :
  (Http._request Scenario.always_times_out Http.uninterrupted
     "GET" "http://h/x" 3).2 =
    flat_map (λ k, [Http.EvCall "GET" "http://h/x" k;
                    Http.EvSleep (Http.wait_time k)])
      (Http.range 3)
    ++ [Http.EvCall "GET" "http://h/x" 3]
  ∧ Http.total_sleep
      (Http._request Scenario.always_times_out Http.uninterrupted
         "GET" "http://h/x" 3).2 =
      2 ^ 3 - 1.
Proof.
  apply (request_exhaustion_cost Scenario.always_times_out Http.uninterrupted
           "GET" "http://h/x" 3); [lia| |done].
  intros k _. exists Scenario.timeout_error. split; reflexivity.
Defined.

(** X27. A client used without [async with], so that [self.session] is
    still [None], does not raise: each attempt fails on the attribute
    access inside the [try] block and is retried like a transport failure,
    and, no backoff sleep being interrupted, after [retries + 1] attempts
    and [2 ^ retries - 1] seconds of sleep [get] returns the status-0
    response whose error is the text of the [AttributeError]. *)
Theorem get_without_session
    (sleep : Http.sleeper) (url : string) (retries : Z) :
  0 ≤ retries →
  (∀ k, 0 ≤ k < retries → sleep k = Http.Returns ()) →
  ∃ tr,
    Http.client_get Http.new_client sleep url retries =
      (Http.Returns
         (Http.mkAPIResponse 0 None
            (Some "'NoneType' object has no attribute 'request'")), tr)
    ∧ Http.calls tr = Http.range (retries + 1)
    ∧ Http.total_sleep tr = 2 ^ retries - 1.
Proof.
  intros Hr Hsleep.
  unfold Http.client_get, Http.get, Http.session_request. simpl.
  assert (∀ k, ∃ e, Http.attempt_fails
                      (λ _ _ _, Http.Raises Http.AttributeError_request)
                      "GET" url k e) as Hfail.
  { intros k. exists Http.AttributeError_request. by split. }
  pose proof (loop_exhausts (λ _ _ _, Http.Raises Http.AttributeError_request)
                sleep "GET" url retries (Z.to_nat retries) 0 None) as Htr.
  destruct (loop_all_fail (λ _ _ _, Http.Raises Http.AttributeError_request)
              sleep "GET" url retries (Z.to_nat (retries + 1)) 0 None)
    as (tr & last' & Hrun & Hcalls & Hlast);
    [by intros k _|intros k Hk; apply Hsleep; lia|].
  rewrite Z2Nat.id in Hrun, Hcalls by lia.
  unfold Http._request, Http.range. rewrite Hrun.
  destruct (Z.to_nat (retries + 1)) as [|n'] eqn:Hn; [lia|].
  destruct Hlast as (e & -> & Hb & _). simpl in Hb. injection Hb as <-.
  exists tr. split_and!; try done.
  replace (retries + 1) with (Z.of_nat (S (Z.to_nat retries))) in Hrun by lia.
  rewrite Hrun in Htr. simpl in Htr.
  rewrite Htr; [|by intros k _|intros k Hk; apply Hsleep; lia|lia].
  rewrite total_sleep_app, total_sleep_failed_prefix by lia.
  rewrite Z2Nat.id, Z.add_0_l, Z.pow_0_r by lia.
  unfold Http.total_sleep. simpl. lia.
Qed.

Lemma get_without_session_witness :
  ∃ tr,
    Http.client_get Http.new_client Http.uninterrupted "http://h/x" 3 =
      (Http.Returns
         (Http.mkAPIResponse 0 None
            (Some "'NoneType' object has no attribute 'request'")), tr)
    ∧ Http.calls tr = Http.range (3 + 1)
    ∧ Http.total_sleep tr = 2 ^ 3 - 1.
Proof.
  apply (get_without_session Http.uninterrupted "http://h/x" 3); [lia|done].
Defined.
